(** * SDL2Project: the platformer of [main.cpp]

    A shallow embedding of the game logic of [main.cpp]: the per-frame
    [Player::update] (horizontal move and clamp, gravity, platform
    collision, ground line, right edge, jump), the click handler of the
    carousels, the frame loop of [runGameLoop] and the start-up sequence of
    [main].

    Conventions.
    - A C++ [int] is a [Z] and every [int] operation of the source is
      written with the two's-complement wrap-around of a 32-bit machine
      ([Int32.add], [Int32.sub]); [size_t] is 64 bits wide ([Size.wrap]).
    - A C++ [float] is an IEEE-754 binary32 value, a [spec_float] with
      precision 24 and maximal exponent 128, rounded to nearest even.
    - Textures, fonts, the renderer and the hover flag of the buttons are
      handles of the presentation layer; they do not take part in the
      logic and are left out.  [SDL_Delay] is a pause and has no effect on
      the state. *)

From Stdlib Require Import ZArith Lia List Bool QArith Qround.
From Stdlib Require Import Floats.SpecFloat.
From Stdlib Require Import Strings.Byte.
Import ListNotations.
Local Open Scope Z_scope.

(** ** Machine integers *)

Module Int32.
Definition min_signed : Z := - 2 ^ 31.
Definition max_signed : Z := 2 ^ 31 - 1.

(** The value an [int] holds after an operation whose exact result is [z]. *)
Definition wrap (z : Z) : Z := (z + 2 ^ 31) mod 2 ^ 32 - 2 ^ 31.

Definition add (a b : Z) : Z := wrap (a + b).
Definition sub (a b : Z) : Z := wrap (a - b).

Definition in_range (z : Z) : Prop := min_signed <= z <= max_signed.

Definition in_rangeb (z : Z) : bool :=
  (min_signed <=? z) && (z <=? max_signed).
End Int32.

Module Size.
(** [size_t]: unsigned, 64 bits. *)
Definition wrap (z : Z) : Z := z mod 2 ^ 64.
Definition add (a b : Z) : Z := wrap (a + b).
(** Conversion of an [int] to [size_t]. *)
Definition of_int (i : Z) : Z := wrap i.
End Size.

(** ** Single-precision floats *)

Module Float32.
Definition prec : Z := 24.
Definition emax : Z := 128.

Definition add : spec_float -> spec_float -> spec_float := SFadd prec emax.

(** Conversion of an [int] to [float]. *)
Definition of_int (i : Z) : spec_float := binary_normalize prec emax i 0 false.

(** [static_cast<int>(f)]: the fractional part is discarded.  The C++
    standard leaves the conversion undefined when the truncated value
    does not fit an [int] (also for infinities and NaN); the x86
    conversion instruction then yields the smallest [int], which is
    what the model returns. *)
Definition to_int (f : spec_float) : Z :=
  match f with
  | S754_zero _ => 0
  | S754_finite s m e =>
      let mag := Z.shiftl (Zpos m) e in
      let v := if s then - mag else mag in
      if Int32.in_rangeb v then v else Int32.min_signed
  | _ => Int32.min_signed
  end.

(** The exact value of a finite float, as a fraction. *)
Definition num (f : spec_float) : Z :=
  match f with
  | S754_finite s m e => cond_Zopp s (Zpos m * 2 ^ Z.max e 0)
  | _ => 0
  end.

Definition den (f : spec_float) : positive :=
  match f with
  | S754_finite _ _ e => Z.to_pos (2 ^ Z.max (- e) 0)
  | _ => 1%positive
  end.

Definition to_Q (f : spec_float) : Q := Qmake (num f) (den f).

Definition is_finite (f : spec_float) : bool :=
  match f with
  | S754_zero _ | S754_finite _ _ _ => true
  | _ => false
  end.
End Float32.

(** ** Constants of the game *)

Definition SCREEN_WIDTH : Z := 800.
Definition SCREEN_HEIGHT : Z := 600.
(** [0.2f]: the binary32 value nearest to 0.2, 13421773 * 2^-26. *)
Definition GRAVITY : spec_float := S754_finite false 13421773 (-26).
(** [-6.0f] = - 12582912 * 2^-21. *)
Definition JUMP_SPEED : spec_float := S754_finite true 12582912 (-21).
Definition GROUND_LEVEL : Z := Int32.sub SCREEN_HEIGHT 50.
Definition PLATFORM_HEIGHT : Z := 20.
Definition PLATFORM_WIDTH : Z := 150.

Inductive GameState : Type :=
| MainMenu
| MapScreen
| SkinScreen
| GameScreen
| WinScreen
| LoseScreen.

Definition GameState_eqb (a b : GameState) : bool :=
  match a, b with
  | MainMenu, MainMenu | MapScreen, MapScreen | SkinScreen, SkinScreen
  | GameScreen, GameScreen | WinScreen, WinScreen | LoseScreen, LoseScreen => true
  | _, _ => false
  end.

(** ** Rectangles, platforms, keyboard *)

Record SDL_Rect : Type := mkRect {
  rect_x : Z;
  rect_y : Z;
  rect_w : Z;
  rect_h : Z
}.

Record Platform : Type := mkPlatform { getRect : SDL_Rect }.

(** The array returned by [SDL_GetKeyboardState]: a [Uint8] per scancode,
    non-zero when the key is held. *)
Definition KeyState : Type := Z -> Z.

(** Scancodes of SDL_scancode.h. *)
Definition SDL_SCANCODE_A : Z := 4.
Definition SDL_SCANCODE_D : Z := 7.
Definition SDL_SCANCODE_W : Z := 26.

(** [if (state[k])]. *)
Definition held (state : KeyState) (k : Z) : bool := negb (state k =? 0).

(** ** The player *)

(** The fields of [class Player] that the logic reads or writes.  The
    member [onAnyPlatform] is declared but never initialised nor used. *)
Record Player : Type := mkPlayer {
  rect : SDL_Rect;
  speed : Z;
  velY : spec_float;
  onGround : bool
}.

(** The constructor [Player(x, y, w, h, texture, onGround)]. *)
Definition newPlayer (x y w h : Z) (grounded : bool) : Player :=
  mkPlayer (mkRect x y w h) 3 (Float32.of_int 0) grounded.

Definition set_x (p : Player) (v : Z) : Player :=
  mkPlayer (mkRect v (rect_y (rect p)) (rect_w (rect p)) (rect_h (rect p)))
           (speed p) (velY p) (onGround p).

Definition set_y (p : Player) (v : Z) : Player :=
  mkPlayer (mkRect (rect_x (rect p)) v (rect_w (rect p)) (rect_h (rect p)))
           (speed p) (velY p) (onGround p).

Definition set_velY (p : Player) (v : spec_float) : Player :=
  mkPlayer (rect p) (speed p) v (onGround p).

Definition set_onGround (p : Player) (b : bool) : Player :=
  mkPlayer (rect p) (speed p) (velY p) b.

(** [rect.y + rect.h] and [rect.x + rect.w], as the source computes them. *)
Definition bottom (p : Player) : Z := Int32.add (rect_y (rect p)) (rect_h (rect p)).
Definition right (p : Player) : Z := Int32.add (rect_x (rect p)) (rect_w (rect p)).

Module PlayerUpdate.

(** Lines 130-134: the requested horizontal displacement. *)
Definition moveX (state : KeyState) (p : Player) : Z :=
  let m := 0 in
  let m := if held state SDL_SCANCODE_A then Int32.sub m (speed p) else m in
  let m := if held state SDL_SCANCODE_D then Int32.add m (speed p) else m in
  m.

(** Lines 136-141: move, then keep the rectangle on the screen. *)
Definition horizontal (state : KeyState) (p : Player) : Player :=
  let p := set_x p (Int32.add (rect_x (rect p)) (moveX state p)) in
  let p := if rect_x (rect p) <? 0 then set_x p 0 else p in
  let p := if right p >? SCREEN_WIDTH
           then set_x p (Int32.sub SCREEN_WIDTH (rect_w (rect p))) else p in
  p.

(** Lines 143-144: gravity, then the vertical displacement. *)
Definition vertical (p : Player) : Player :=
  let p := set_velY p (Float32.add (velY p) GRAVITY) in
  let p := set_y p (Int32.add (rect_y (rect p)) (Float32.to_int (velY p))) in
  p.

(** The condition of lines 151-152. *)
Definition lands_on (p : Player) (r : SDL_Rect) : bool :=
  (bottom p >=? rect_y r) && (bottom p <=? Int32.add (rect_y r) (rect_h r)) &&
  (right p >? rect_x r) && (rect_x (rect p) <? Int32.add (rect_x r) (rect_w r)).

(** Lines 154-156. *)
Definition snap (p : Player) (r : SDL_Rect) : Player :=
  let p := set_y p (Int32.sub (rect_y r) (rect_h (rect p))) in
  let p := set_onGround p true in
  let p := set_velY p (Float32.of_int 0) in
  p.

(** The loop of lines 148-159, left at the first platform that is hit. *)
Fixpoint scan (platforms : list Platform) (p : Player) : Player :=
  match platforms with
  | [] => p
  | platform :: rest =>
      let platformRect := getRect platform in
      if lands_on p platformRect then snap p platformRect else scan rest p
  end.

(** Lines 147-159. *)
Definition collide (platforms : list Platform) (p : Player) : Player :=
  scan platforms (set_onGround p false).

(** Lines 161-167. *)
Definition ground (pg : Player * GameState) : Player * GameState :=
  let '(p, gameState) := pg in
  if bottom p >=? GROUND_LEVEL then
    let p := set_y p (Int32.sub GROUND_LEVEL (rect_h (rect p))) in
    let p := set_onGround p true in
    let p := set_velY p (Float32.of_int 0) in
    (p, LoseScreen)
  else (p, gameState).

(** Lines 169-172. *)
Definition edge (pg : Player * GameState) : Player * GameState :=
  let '(p, gameState) := pg in
  if right p >=? SCREEN_WIDTH then (p, WinScreen) else (p, gameState).

(** Lines 174-178. *)
Definition jump (state : KeyState) (pg : Player * GameState) : Player * GameState :=
  let '(p, gameState) := pg in
  if onGround p && held state SDL_SCANCODE_W then
    let p := set_onGround p false in
    let p := set_velY p JUMP_SPEED in
    (p, gameState)
  else (p, gameState).

(** The player as line 161 finds it: moved, integrated, collided. *)
Definition settled (state : KeyState) (platforms : list Platform) (p : Player) : Player :=
  collide platforms (vertical (horizontal state p)).

End PlayerUpdate.

(** [Player::update]: the new player and the new value of [gameState]. *)
Definition update (state : KeyState) (gameState : GameState)
    (platforms : list Platform) (p : Player) : Player * GameState :=
  PlayerUpdate.jump state
    (PlayerUpdate.edge
      (PlayerUpdate.ground
        (PlayerUpdate.settled state platforms p, gameState))).

(** The platforms of [runGameLoop]. *)
Definition platforms : list Platform :=
  [ mkPlatform (mkRect 0 (Int32.sub GROUND_LEVEL PLATFORM_HEIGHT) PLATFORM_WIDTH PLATFORM_HEIGHT);
    mkPlatform (mkRect 200 (Int32.sub GROUND_LEVEL 100) PLATFORM_WIDTH PLATFORM_HEIGHT);
    mkPlatform (mkRect 0 (Int32.sub GROUND_LEVEL 160) PLATFORM_WIDTH PLATFORM_HEIGHT);
    mkPlatform (mkRect 200 (Int32.sub GROUND_LEVEL 240) PLATFORM_WIDTH PLATFORM_HEIGHT);
    mkPlatform (mkRect 0 (Int32.sub GROUND_LEVEL 320) PLATFORM_WIDTH PLATFORM_HEIGHT);
    mkPlatform (mkRect 200 (Int32.sub GROUND_LEVEL 400) PLATFORM_WIDTH PLATFORM_HEIGHT);
    mkPlatform (mkRect 400 (Int32.sub GROUND_LEVEL 480) PLATFORM_WIDTH PLATFORM_HEIGHT);
    mkPlatform (mkRect 600 (Int32.sub GROUND_LEVEL 160) PLATFORM_WIDTH PLATFORM_HEIGHT) ].

(** The player every game starts with (lines 258, 365, 372, 387). *)
Definition startPlayer : Player :=
  newPlayer 0 (Int32.sub (Int32.sub GROUND_LEVEL PLATFORM_HEIGHT) 50) 50 50 true.

Definition no_keys : KeyState := fun _ => 0.
Definition keys (ks : list Z) : KeyState :=
  fun k => if existsb (Z.eqb k) ks then 1 else 0.

(** ** Buttons and carousels *)

Record Button : Type := mkButton { button_rect : SDL_Rect }.

Definition containsPoint (b : Button) (x y : Z) : bool :=
  let r := button_rect b in
  (x >=? rect_x r) && (x <=? Int32.add (rect_x r) (rect_w r)) &&
  (y >=? rect_y r) && (y <=? Int32.add (rect_y r) (rect_h r)).

Definition half (z : Z) : Z := Z.quot z 2.

Definition playButton : Button :=
  mkButton (mkRect (Int32.sub (half SCREEN_WIDTH) 100) (Int32.sub (half SCREEN_HEIGHT) 150) 200 50).
Definition skinButton : Button :=
  mkButton (mkRect (Int32.sub (half SCREEN_WIDTH) 225) (Int32.sub (half SCREEN_HEIGHT) 75) 200 50).
Definition mapButton : Button :=
  mkButton (mkRect (Int32.add (half SCREEN_WIDTH) 25) (Int32.sub (half SCREEN_HEIGHT) 75) 200 50).
Definition exitButton : Button :=
  mkButton (mkRect (Int32.add (half SCREEN_WIDTH) 150) (Int32.add (half SCREEN_HEIGHT) 200) 200 50).
Definition selectButton : Button :=
  mkButton (mkRect (Int32.sub (half SCREEN_WIDTH) 100) (Int32.add (half SCREEN_HEIGHT) 125) 200 50).
Definition backButton : Button :=
  mkButton (mkRect (Int32.sub (half SCREEN_WIDTH) 100) (Int32.add (half SCREEN_HEIGHT) 200) 200 50).
Definition winBackButton : Button :=
  mkButton (mkRect (Int32.sub (half SCREEN_WIDTH) 100) (Int32.add (half SCREEN_HEIGHT) 100) 200 50).
Definition loseBackButton : Button :=
  mkButton (mkRect (Int32.sub (half SCREEN_WIDTH) 100) (Int32.add (half SCREEN_HEIGHT) 100) 200 50).
Definition leftArrowButton : Button :=
  mkButton (mkRect (Int32.sub (half SCREEN_WIDTH) 250) (half SCREEN_HEIGHT) 50 50).
Definition rightArrowButton : Button :=
  mkButton (mkRect (Int32.add (half SCREEN_WIDTH) 200) (half SCREEN_HEIGHT) 50 50).

(** The two asset lists, by the number of their entries ([size()]). *)
Definition mapImagePaths_size : Z := 6.
Definition skinImagePaths_size : Z := 2.

Module Carousel.
(** [(index - 1 + size) % size], lines 317 and 339: the subtraction is
    done on [int], the sum and the remainder on [size_t], and the result
    is stored in an [int]. *)
Definition previous (index size : Z) : Z :=
  Int32.wrap (Size.add (Size.of_int (Int32.sub index 1)) size mod size).

(** [(index + 1) % size], lines 322 and 344. *)
Definition next (index size : Z) : Z :=
  Int32.wrap (Size.of_int (Int32.add index 1) mod size).
End Carousel.

(** ** The frame loop of [runGameLoop] *)

Inductive SDL_Event : Type :=
| SDL_QUIT
| SDL_MOUSEBUTTONDOWN (x y : Z)
| SDL_KEYDOWN (sym : Z)
| SDL_MOUSEMOTION (x y : Z)
| SDL_OTHER.

Definition SDLK_ESCAPE : Z := 27.

(** The local variables of [runGameLoop] that the logic uses. *)
Record Loop : Type := mkLoop {
  gameState : GameState;
  isRunning : bool;
  currentMapIndex : Z;
  currentSkinIndex : Z;
  player : Player;
  levelPlatforms : list Platform;
  audioPaused : bool
}.

Definition set_gameState (s : Loop) (g : GameState) : Loop :=
  mkLoop g (isRunning s) (currentMapIndex s) (currentSkinIndex s) (player s)
         (levelPlatforms s) (audioPaused s).
Definition set_isRunning (s : Loop) (b : bool) : Loop :=
  mkLoop (gameState s) b (currentMapIndex s) (currentSkinIndex s) (player s)
         (levelPlatforms s) (audioPaused s).
Definition set_currentMapIndex (s : Loop) (i : Z) : Loop :=
  mkLoop (gameState s) (isRunning s) i (currentSkinIndex s) (player s)
         (levelPlatforms s) (audioPaused s).
Definition set_currentSkinIndex (s : Loop) (i : Z) : Loop :=
  mkLoop (gameState s) (isRunning s) (currentMapIndex s) i (player s)
         (levelPlatforms s) (audioPaused s).
Definition set_player (s : Loop) (p : Player) : Loop :=
  mkLoop (gameState s) (isRunning s) (currentMapIndex s) (currentSkinIndex s) p
         (levelPlatforms s) (audioPaused s).
Definition set_audioPaused (s : Loop) (b : bool) : Loop :=
  mkLoop (gameState s) (isRunning s) (currentMapIndex s) (currentSkinIndex s) (player s)
         (levelPlatforms s) b.

(** The state at line 280; an audio device is opened paused. *)
Definition initialLoop : Loop :=
  mkLoop MainMenu true 0 0 startPlayer platforms true.

(** Lines 293-377: a mouse button goes down at [(mouseX, mouseY)]. *)
Definition click (mouseX mouseY : Z) (s : Loop) : Loop :=
  match gameState s with
  | MainMenu =>
      if containsPoint playButton mouseX mouseY then
        set_audioPaused (set_gameState s GameScreen) false
      else if containsPoint skinButton mouseX mouseY then set_gameState s SkinScreen
      else if containsPoint mapButton mouseX mouseY then set_gameState s MapScreen
      else if containsPoint exitButton mouseX mouseY then set_isRunning s false
      else s
  | SkinScreen =>
      if containsPoint leftArrowButton mouseX mouseY then
        set_currentSkinIndex s (Carousel.previous (currentSkinIndex s) skinImagePaths_size)
      else if containsPoint rightArrowButton mouseX mouseY then
        set_currentSkinIndex s (Carousel.next (currentSkinIndex s) skinImagePaths_size)
      else if containsPoint selectButton mouseX mouseY then s
      else if containsPoint backButton mouseX mouseY then set_gameState s MainMenu
      else s
  | MapScreen =>
      if containsPoint leftArrowButton mouseX mouseY then
        set_currentMapIndex s (Carousel.previous (currentMapIndex s) mapImagePaths_size)
      else if containsPoint rightArrowButton mouseX mouseY then
        set_currentMapIndex s (Carousel.next (currentMapIndex s) mapImagePaths_size)
      else if containsPoint selectButton mouseX mouseY then s
      else if containsPoint backButton mouseX mouseY then set_gameState s MainMenu
      else s
  | WinScreen =>
      if containsPoint winBackButton mouseX mouseY then
        set_player (set_gameState s MainMenu) startPlayer
      else s
  | LoseScreen =>
      if containsPoint loseBackButton mouseX mouseY then
        set_player (set_gameState s GameScreen) startPlayer
      else s
  | GameScreen => s
  end.

(** Lines 284-425: one polled event. *)
Definition handle (s : Loop) (event : SDL_Event) : Loop :=
  match event with
  | SDL_QUIT => set_isRunning s false
  | SDL_MOUSEBUTTONDOWN mouseX mouseY => click mouseX mouseY s
  | SDL_KEYDOWN sym =>
      if sym =? SDLK_ESCAPE then
        if GameState_eqb (gameState s) GameScreen then
          set_player (set_audioPaused (set_gameState s MainMenu) true) startPlayer
        else s
      else s
  | SDL_MOUSEMOTION _ _ => s
  | SDL_OTHER => s
  end.

(** Lines 435-479: what drawing the active screen does to the state. *)
Definition render (state : KeyState) (s : Loop) : Loop :=
  match gameState s with
  | GameScreen =>
      let '(p, g) := update state (gameState s) (levelPlatforms s) (player s) in
      set_gameState (set_player s p) g
  | _ => s
  end.

(** One turn of the outer loop: the events that [SDL_PollEvent] delivers,
    then the keyboard state read at line 430. *)
Record Frame : Type := mkFrame {
  events : list SDL_Event;
  keyboard : KeyState
}.

Definition frame (f : Frame) (s : Loop) : Loop :=
  render (keyboard f) (fold_left handle (events f) s).

(** [while (isRunning)] over the frames the environment supplies; [None]
    when they run out while the loop is still running. *)
Fixpoint loop (frames : list Frame) (s : Loop) : option Loop :=
  if isRunning s then
    match frames with
    | [] => None
    | f :: rest => loop rest (frame f s)
    end
  else Some s.

(** ** Start-up *)

(** What the multimedia library answers to the calls of [main] and
    [runGameLoop]. *)
Record Env : Type := mkEnv {
  SDL_Init : Z;
  IMG_Init : Z;
  TTF_Init : Z;
  SDL_CreateWindow : bool;
  SDL_CreateRenderer : bool;
  SDL_LoadWAV : bool;
  SDL_OpenAudioDevice : Z;
  frames : list Frame
}.

Definition IMG_INIT_PNG : Z := 2.

(** How [runGameLoop] came back. *)
Inductive Returned : Type :=
| WavFailed
| AudioDeviceFailed
| LoopEnded (s : Loop).

(** [runGameLoop]; [None] when the loop has not ended on the given frames. *)
Definition runGameLoop (env : Env) : option Returned :=
  if negb (SDL_LoadWAV env) then Some WavFailed
  else if SDL_OpenAudioDevice env =? 0 then Some AudioDeviceFailed
  else option_map LoopEnded (loop (frames env) initialLoop).

(** [main]: the exit code of the process. *)
Definition main (env : Env) : option Z :=
  if SDL_Init env <? 0 then Some 1
  else if Z.land (IMG_Init env) IMG_INIT_PNG =? 0 then Some 1
  else if TTF_Init env =? -1 then Some 1
  else if negb (SDL_CreateWindow env) then Some 1
  else if negb (SDL_CreateRenderer env) then Some 1
  else match runGameLoop env with
       | Some _ => Some 0
       | None => None
       end.

Definition goodEnv (fs : list Frame) : Env :=
  mkEnv 0 IMG_INIT_PNG 0 true true true 2 fs.

(** The map screen, before any arrow is clicked. *)
Definition mapScreen0 : Loop := set_gameState initialLoop MapScreen.
(** A click on the left arrow and a click on the right arrow. *)
Definition clickPrevious : Loop -> Loop := click 160 310.
Definition clickNext : Loop -> Loop := click 610 310.

(** One of the five start-up steps of [main] fails. *)
Definition startup_fails (env : Env) : Prop :=
  SDL_Init env < 0 \/
  Z.land (IMG_Init env) IMG_INIT_PNG = 0 \/
  TTF_Init env = -1 \/
  SDL_CreateWindow env = false \/
  SDL_CreateRenderer env = false.

(** The audio file does not load, or the audio device does not open. *)
Definition audio_fails (env : Env) : Prop :=
  SDL_LoadWAV env = false \/ SDL_OpenAudioDevice env = 0.

(** An environment in which everything works but the audio file. *)
Definition noWavEnv : Env := mkEnv 0 IMG_INIT_PNG 0 true true false 2 [].

(** ** The audio callback *)

Module UInt32.
(** [Uint32]: unsigned, 32 bits. *)
Definition wrap (z : Z) : Z := z mod 2 ^ 32.
(** Conversion of an [int] to [unsigned int]. *)
Definition of_int (i : Z) : Z := wrap i.
Definition sub (a b : Z) : Z := wrap (a - b).
End UInt32.

Module AudioData.
(** [struct AudioData]: [pos] points into the buffer that [SDL_LoadWAV]
    filled and is kept as the offset from the start of that buffer;
    [length] is the number of bytes still to play. *)
Record t : Type := mk {
  pos : Z;
  length : Z
}.
End AudioData.

(** [SDL_memcpy(dst, src, len)] on the bytes from [dst] on and from [src]
    on.  The source reads and writes past the end of a buffer when [len]
    exceeds it; a list has nothing there, and the properties below give
    the bounds under which the copy stays inside both buffers. *)
Definition SDL_memcpy (dst src : list byte) (len : Z) : list byte :=
  let n := Z.to_nat (Size.of_int len) in
  firstn n src ++ skipn n dst.

(** [MyAudioCallback], lines 32-44: [wav] is the loaded clip, [stream] the
    device buffer from its start on, [len] the number of bytes the device
    asks for.  The comparison and the choice of line 39 are made on
    [unsigned int], the result goes back into the [int] [len]. *)
Definition MyAudioCallback (wav : list byte) (audio : AudioData.t)
    (stream : list byte) (len : Z) : AudioData.t * list byte :=
  if AudioData.length audio =? 0 then (audio, stream)
  else
    let len := Int32.wrap (if UInt32.of_int len >? AudioData.length audio
                           then AudioData.length audio else UInt32.of_int len) in
    let stream := SDL_memcpy stream (skipn (Z.to_nat (AudioData.pos audio)) wav) len in
    (AudioData.mk (AudioData.pos audio + len)
                  (UInt32.sub (AudioData.length audio) (UInt32.of_int len)),
     stream).

(** Line 268: the state the callback starts from. *)
Definition initialAudio (wav : list byte) : AudioData.t :=
  AudioData.mk 0 (Z.of_nat (List.length wav)).

(** The device, once unpaused, hands the callback one buffer after the
    other, each with its own size as [len]; the result is the final state
    and the buffers as the callback left them. *)
Fixpoint play (wav : list byte) (audio : AudioData.t) (buffers : list (list byte))
  : AudioData.t * list (list byte) :=
  match buffers with
  | [] => (audio, [])
  | stream :: rest =>
      let '(audio1, out) :=
        MyAudioCallback wav audio stream (Z.of_nat (List.length stream)) in
      let '(audio2, outs) := play wav audio1 rest in
      (audio2, out :: outs)
  end.

(** The state of the callback stays inside the clip. *)
Definition audio_in_clip (wav : list byte) (audio : AudioData.t) : Prop :=
  0 <= AudioData.pos audio /\
  0 <= AudioData.length audio < 2 ^ 32 /\
  AudioData.pos audio + AudioData.length audio <= Z.of_nat (List.length wav).

(** ** Vocabulary of the state machine *)

(** The changes of screen that one event can make (lines 293-389). *)
Definition event_edge (a b : GameState) : bool :=
  match a, b with
  | MainMenu, GameScreen | MainMenu, SkinScreen | MainMenu, MapScreen
  | SkinScreen, MainMenu | MapScreen, MainMenu
  | WinScreen, MainMenu | LoseScreen, GameScreen
  | GameScreen, MainMenu => true
  | _, _ => false
  end.

(** The states the loop can be in: the initial one, and what an event or
    the drawing of a frame makes of such a state. *)
Inductive reachable : Loop -> Prop :=
| reach_initial : reachable initialLoop
| reach_handle (s : Loop) (e : SDL_Event) : reachable s -> reachable (handle s e)
| reach_render (s : Loop) (state : KeyState) : reachable s -> reachable (render state s).

(** What holds of the player of a running loop. *)
Definition on_stage (p : Player) : Prop :=
  speed p = 3 /\ rect_w (rect p) = 50 /\ rect_h (rect p) = 50 /\
  0 <= rect_x (rect p) <= SCREEN_WIDTH - 50 /\
  bottom p <= GROUND_LEVEL /\
  (onGround p = true -> velY p = Float32.of_int 0).

(** What holds of the loop, screen by screen. *)
Definition loop_inv (s : Loop) : Prop :=
  on_stage (player s) /\
  0 <= currentMapIndex s < mapImagePaths_size /\
  0 <= currentSkinIndex s < skinImagePaths_size /\
  levelPlatforms s = platforms /\
  match gameState s with
  | MainMenu | MapScreen | SkinScreen => player s = startPlayer
  | GameScreen =>
      bottom (player s) < GROUND_LEVEL /\ right (player s) < SCREEN_WIDTH /\
      audioPaused s = false
  | WinScreen => right (player s) = SCREEN_WIDTH /\ audioPaused s = false
  | LoseScreen =>
      bottom (player s) = GROUND_LEVEL /\ right (player s) < SCREEN_WIDTH /\
      audioPaused s = false
  end.

(** [n] clicks on "next". *)
Fixpoint next_times (k : nat) (i n : Z) : Z :=
  match k with
  | O => i
  | S k' => Carousel.next (next_times k' i n) n
  end.

(** A frame that delivers the window-close event. *)
Definition has_quit (f : Frame) : Prop := In SDL_QUIT (events f).

(** * Properties *)

(** ** The model at work *)

(** Standing on the first platform, no key held: nothing moves. *)
Example update_standing :
  update no_keys GameScreen platforms startPlayer = (startPlayer, GameScreen).
Proof. reflexivity. Qed.

(** A jump from there, then the first frame in the air. *)
Example update_jump_then_rise :
  let (p1, g1) := update (keys [SDL_SCANCODE_W]) GameScreen platforms startPlayer in
  let (p2, g2) := update no_keys g1 platforms p1 in
  velY p1 = JUMP_SPEED /\ onGround p1 = false /\ rect_y (rect p1) = 480 /\
  rect_y (rect p2) = 475 /\ onGround p2 = false /\ g2 = GameScreen.
Proof. vm_compute. repeat split. Qed.

(** A click on PLAY, a frame with the right key held, then the window is
    closed; the frame of the quit event is still drawn, so the player has
    moved twice.  The process ends with exit code 0. *)
Example main_play_then_quit :
  main (goodEnv [ mkFrame [SDL_MOUSEBUTTONDOWN 400 160] (keys [SDL_SCANCODE_D]);
                  mkFrame [SDL_QUIT] (keys [SDL_SCANCODE_D]) ]) = Some 0 /\
  option_map (fun s => (gameState s, rect_x (rect (player s))))
    (loop [ mkFrame [SDL_MOUSEBUTTONDOWN 400 160] (keys [SDL_SCANCODE_D]);
            mkFrame [SDL_QUIT] (keys [SDL_SCANCODE_D]) ] initialLoop) = Some (GameScreen, 6).
Proof. vm_compute. split; reflexivity. Qed.

(** Without a quit event the loop is still running when the frames end. *)
Example main_still_running : main (goodEnv [ mkFrame [] no_keys ]) = None.
Proof. reflexivity. Qed.

(** ** Arithmetic of machine integers *)

Lemma wrap_in_range (z : Z) : Int32.in_range (Int32.wrap z).
Proof.
  unfold Int32.in_range, Int32.wrap, Int32.min_signed, Int32.max_signed.
  pose proof (Z.mod_pos_bound (z + 2 ^ 31) (2 ^ 32) ltac:(lia)). lia.
Qed.

Lemma wrap_small (z : Z) : Int32.in_range z -> Int32.wrap z = z.
Proof.
  unfold Int32.in_range, Int32.wrap, Int32.min_signed, Int32.max_signed.
  intros Hz. rewrite Z.mod_small; lia.
Qed.

(** Storing [a - h] and adding [h] back gives [a], whatever wrapped. *)
Lemma wrap_sub_add (a h : Z) : Int32.add (Int32.sub a h) h = Int32.wrap a.
Proof.
  unfold Int32.add, Int32.sub, Int32.wrap.
  replace ((a - h + 2 ^ 31) mod 2 ^ 32 - 2 ^ 31 + h + 2 ^ 31)
    with ((a - h + 2 ^ 31) mod 2 ^ 32 + h) by ring.
  rewrite Zplus_mod_idemp_l. f_equal. f_equal. ring.
Qed.

(** ** The platform scan *)

Section Scan.
Import PlayerUpdate.

Lemma snap_fields (p : Player) (r : SDL_Rect) :
  onGround (snap p r) = true /\
  velY (snap p r) = Float32.of_int 0 /\
  bottom (snap p r) = Int32.wrap (rect_y r) /\
  rect_x (rect (snap p r)) = rect_x (rect p) /\
  rect_w (rect (snap p r)) = rect_w (rect p) /\
  rect_h (rect (snap p r)) = rect_h (rect p) /\
  speed (snap p r) = speed p.
Proof.
  unfold snap, bottom; simpl. rewrite wrap_sub_add. repeat split.
Qed.

(** The scan leaves the player alone when no platform is hit and snaps it
    to the first platform that is hit otherwise. *)
Lemma scan_find (ps : list Platform) (p : Player) :
  scan ps p =
  match find (fun P => lands_on p (getRect P)) ps with
  | Some P => snap p (getRect P)
  | None => p
  end.
Proof.
  induction ps as [|P ps IH]; simpl; [reflexivity|].
  destruct (lands_on p (getRect P)); [reflexivity|exact IH].
Qed.

Lemma find_first {A : Type} (f : A -> bool) (l : list A) (a : A) :
  find f l = Some a ->
  exists before after,
    l = before ++ a :: after /\ f a = true /\
    forall b, In b before -> f b = false.
Proof.
  induction l as [|c l IH]; simpl; [discriminate|].
  destruct (f c) eqn:Hc.
  - intros [= <-]. exists [], l. repeat split; auto. intros b [].
  - intros Hf. destruct (IH Hf) as (before & after & -> & Ha & Hb).
    exists (c :: before), after. repeat split; auto.
    intros b [<-|Hin]; auto.
Qed.

Lemma find_hit {A : Type} (f : A -> bool) (l : list A) (a : A) :
  In a l -> f a = true -> exists b, find f l = Some b.
Proof.
  induction l as [|c l IH]; simpl; [intros []|].
  intros [<-|Hin] Ha.
  - rewrite Ha. eauto.
  - destruct (f c); eauto.
Qed.

(** Either nothing happened or the player stands on a platform. *)
Lemma scan_cases (ps : list Platform) (p : Player) :
  scan ps p = p \/
  exists P, In P ps /\ lands_on p (getRect P) = true /\ scan ps p = snap p (getRect P).
Proof.
  rewrite scan_find.
  destruct (find _ ps) as [P|] eqn:Hf; [right|left; reflexivity].
  apply find_some in Hf. exists P. tauto.
Qed.

Lemma collide_cases (ps : list Platform) (p : Player) :
  collide ps p = set_onGround p false \/
  exists P, In P ps /\ lands_on p (getRect P) = true /\
            collide ps p = snap (set_onGround p false) (getRect P).
Proof.
  unfold collide. destruct (scan_cases ps (set_onGround p false)) as [H|(P & Hin & Hl & H)].
  - left; exact H.
  - right. exists P. auto.
Qed.

(** What the collision step keeps. *)
Lemma collide_frame (ps : list Platform) (p : Player) :
  rect_x (rect (collide ps p)) = rect_x (rect p) /\
  rect_w (rect (collide ps p)) = rect_w (rect p) /\
  rect_h (rect (collide ps p)) = rect_h (rect p) /\
  speed (collide ps p) = speed p.
Proof.
  destruct (collide_cases ps p) as [H|(P & _ & _ & H)]; rewrite H.
  - repeat split.
  - destruct (snap_fields (set_onGround p false) (getRect P))
      as (_ & _ & _ & Hx & Hw & Hh & Hs). auto.
Qed.

(** After the collision step the player is grounded only with zero
    vertical velocity. *)
Lemma collide_grounded (ps : list Platform) (p : Player) :
  onGround (collide ps p) = true -> velY (collide ps p) = Float32.of_int 0.
Proof.
  destruct (collide_cases ps p) as [H|(P & _ & _ & H)]; rewrite H.
  - simpl. discriminate.
  - intros _. apply snap_fields.
Qed.

Lemma collide_airborne (ps : list Platform) (p : Player) :
  onGround (collide ps p) = false -> collide ps p = set_onGround p false.
Proof.
  destruct (collide_cases ps p) as [H|(P & _ & _ & H)]; rewrite H; auto.
  destruct (snap_fields (set_onGround p false) (getRect P)) as (Hg & _).
  rewrite Hg. discriminate.
Qed.
End Scan.

(** ** Collision with the platforms *)

Section Collision.
Import PlayerUpdate.

Lemma lands_on_set_onGround (p : Player) (b : bool) (r : SDL_Rect) :
  lands_on (set_onGround p b) r = lands_on p r.
Proof. reflexivity. Qed.

(** The collision step puts the player on the first platform, in list
    order, that it lands on. *)
Lemma collide_first (ps : list Platform) (P : Platform) (p : Player) :
  In P ps -> lands_on p (getRect P) = true ->
  exists before F after,
    ps = before ++ F :: after /\
    (forall Q, In Q before -> lands_on p (getRect Q) = false) /\
    lands_on p (getRect F) = true /\
    collide ps p = snap (set_onGround p false) (getRect F).
Proof.
  intros Hin Hland. unfold collide. rewrite scan_find.
  destruct (find_hit (fun Q => lands_on (set_onGround p false) (getRect Q)) ps P Hin Hland)
    as [F HF].
  rewrite HF. destruct (find_first _ _ _ HF) as (before & after & Hps & HlF & Hb).
  exists before, F, after. repeat split; auto.
Qed.

(** The vertical band of a platform that is hit contains the bottom edge. *)
Lemma lands_on_band (p : Player) (r : SDL_Rect) :
  lands_on p r = true ->
  rect_y r <= bottom p <= Int32.add (rect_y r) (rect_h r).
Proof.
  unfold lands_on. rewrite !andb_true_iff. lia.
Qed.

(** The platforms of the game have bands 20 high whose tops, when they
    differ, are at least 60 apart. *)
Lemma platforms_tops (P : Platform) :
  In P platforms ->
  Int32.add (rect_y (getRect P)) (rect_h (getRect P)) = rect_y (getRect P) + 20 /\
  (rect_y (getRect P) = 530 \/ rect_y (getRect P) = 450 \/ rect_y (getRect P) = 390 \/
   rect_y (getRect P) = 310 \/ rect_y (getRect P) = 230 \/ rect_y (getRect P) = 150 \/
   rect_y (getRect P) = 70).
Proof.
  unfold platforms. simpl In.
  intros H; repeat (destruct H as [<-|H]; [vm_compute; split; [reflexivity|tauto]|]).
  destruct H.
Qed.

Lemma platforms_same_top (P F : Platform) (p : Player) :
  In P platforms -> In F platforms ->
  lands_on p (getRect P) = true -> lands_on p (getRect F) = true ->
  rect_y (getRect F) = rect_y (getRect P).
Proof.
  intros HP HF HlP HlF.
  apply lands_on_band in HlP, HlF.
  destruct (platforms_tops P HP) as [EP TP], (platforms_tops F HF) as [EF TF].
  rewrite EP in HlP. rewrite EF in HlF. lia.
Qed.
End Collision.

(** C2, as amended.  When the player, after the vertical integration, lands
    on a platform [P] of the list, the collision step leaves it grounded
    with zero vertical velocity and with its bottom edge on the top of the
    first platform of the list that it lands on: the scan stops there.
    That is the top of [P] whenever [P] is this first platform, and for
    every [P] on the platform list of the game. *)
Theorem collide_snaps_to_first_platform
    (ps : list Platform) (P : Platform) (p : Player) :
  In P ps ->
  PlayerUpdate.lands_on p (getRect P) = true ->
  Forall (fun Q => Int32.in_range (rect_y (getRect Q))) ps ->
  let p' := PlayerUpdate.collide ps p in
  onGround p' = true /\
  velY p' = Float32.of_int 0 /\
  (exists before F after,
      ps = before ++ F :: after /\
      (forall Q, In Q before -> PlayerUpdate.lands_on p (getRect Q) = false) /\
      PlayerUpdate.lands_on p (getRect F) = true /\
      bottom p' = rect_y (getRect F)) /\
  ((forall Q, In Q ps -> PlayerUpdate.lands_on p (getRect Q) = true ->
              rect_y (getRect Q) = rect_y (getRect P)) ->
   bottom p' = rect_y (getRect P)) /\
  (ps = platforms -> bottom p' = rect_y (getRect P)).
Proof.
  intros Hin Hland Hrange p'.
  destruct (collide_first ps P p Hin Hland) as (before & F & after & Hps & Hb & HlF & Hc).
  assert (HinF : In F ps) by (rewrite Hps; apply in_elt).
  assert (Hbot : bottom p' = rect_y (getRect F)).
  { subst p'. rewrite Hc.
    destruct (snap_fields (set_onGround p false) (getRect F)) as (_ & _ & Hbt & _).
    rewrite Hbt. apply wrap_small.
    rewrite Forall_forall in Hrange. exact (Hrange F HinF). }
  subst p'. rewrite Hc in *.
  destruct (snap_fields (set_onGround p false) (getRect F)) as (Hg & Hv & _).
  split; [exact Hg|]. split; [exact Hv|]. split; [|split].
  - exists before, F, after. auto.
  - intros Hsame. rewrite Hbot. apply Hsame; assumption.
  - intros ->. rewrite Hbot. apply (platforms_same_top P F p); assumption.
Qed.

Lemma collide_snaps_to_first_platform_witness :
  bottom (PlayerUpdate.collide platforms startPlayer) = 530 /\
  onGround (PlayerUpdate.collide platforms startPlayer) = true.
Proof.
  assert (Hin : In (mkPlatform (mkRect 0 530 150 20)) platforms) by (left; reflexivity).
  assert (Hland : PlayerUpdate.lands_on startPlayer (getRect (mkPlatform (mkRect 0 530 150 20))) = true)
    by reflexivity.
  assert (Hrange : Forall (fun Q => Int32.in_range (rect_y (getRect Q))) platforms).
  { repeat constructor; vm_compute; discriminate. }
  destruct (collide_snaps_to_first_platform platforms _ startPlayer Hin Hland Hrange)
    as (Hg & _ & _ & _ & Hb).
  split; [exact (Hb eq_refl)|exact Hg].
Defined.

(** C2, as stated, fails on a list with two overlapping bands: the player
    lands on both platforms and is put on the first, not on the second. *)
Lemma collide_not_every_platform :
  ~ (forall (ps : list Platform) (P : Platform) (p : Player),
        In P ps -> PlayerUpdate.lands_on p (getRect P) = true ->
        bottom (PlayerUpdate.collide ps p) = rect_y (getRect P) /\
        onGround (PlayerUpdate.collide ps p) = true /\
        velY (PlayerUpdate.collide ps p) = Float32.of_int 0).
Proof.
  intros H.
  destruct (H [mkPlatform (mkRect 0 100 150 20); mkPlatform (mkRect 0 110 150 20)]
              (mkPlatform (mkRect 0 110 150 20))
              (newPlayer 0 65 50 50 false)
              (or_intror (or_introl eq_refl)) eq_refl) as [Hb _].
  vm_compute in Hb. discriminate Hb.
Qed.

(** ** The ground line, the right edge and the jump *)

Section Steps.
Import PlayerUpdate.

Lemma ground_hit (p : Player) (g : GameState) :
  bottom p >= GROUND_LEVEL ->
  ground (p, g) =
  (set_velY (set_onGround (set_y p (Int32.sub GROUND_LEVEL (rect_h (rect p)))) true)
            (Float32.of_int 0), LoseScreen).
Proof.
  intros H. unfold ground.
  destruct (bottom p >=? GROUND_LEVEL) eqn:E; [reflexivity|]. lia.
Qed.

(** The ground step keeps the horizontal extent, the size and the speed. *)
Lemma ground_frame (p : Player) (g : GameState) :
  rect_x (rect (fst (ground (p, g)))) = rect_x (rect p) /\
  rect_w (rect (fst (ground (p, g)))) = rect_w (rect p) /\
  rect_h (rect (fst (ground (p, g)))) = rect_h (rect p) /\
  speed (fst (ground (p, g))) = speed p /\
  right (fst (ground (p, g))) = right p.
Proof.
  unfold ground. destruct (bottom p >=? GROUND_LEVEL); repeat split.
Qed.

Lemma ground_grounded (p : Player) (g : GameState) :
  (onGround p = true -> velY p = Float32.of_int 0) ->
  onGround (fst (ground (p, g))) = true ->
  velY (fst (ground (p, g))) = Float32.of_int 0.
Proof.
  unfold ground. destruct (bottom p >=? GROUND_LEVEL); simpl; auto.
Qed.

Lemma jump_state (state : KeyState) (p : Player) (g : GameState) :
  snd (jump state (p, g)) = g.
Proof. unfold jump. destruct (onGround p && held state SDL_SCANCODE_W); reflexivity. Qed.

Lemma jump_frame (state : KeyState) (p : Player) (g : GameState) :
  rect (fst (jump state (p, g))) = rect p /\ speed (fst (jump state (p, g))) = speed p.
Proof. unfold jump. destruct (onGround p && held state SDL_SCANCODE_W); split; reflexivity. Qed.

Lemma horizontal_frame (state : KeyState) (p : Player) :
  rect_y (rect (horizontal state p)) = rect_y (rect p) /\
  rect_w (rect (horizontal state p)) = rect_w (rect p) /\
  rect_h (rect (horizontal state p)) = rect_h (rect p) /\
  speed (horizontal state p) = speed p /\
  velY (horizontal state p) = velY p.
Proof.
  unfold horizontal.
  repeat match goal with |- context [if ?c then _ else _] => destruct c end;
    repeat split.
Qed.

Lemma vertical_frame (p : Player) :
  rect_x (rect (vertical p)) = rect_x (rect p) /\
  rect_w (rect (vertical p)) = rect_w (rect p) /\
  rect_h (rect (vertical p)) = rect_h (rect p) /\
  speed (vertical p) = speed p.
Proof. repeat split. Qed.

(** The two components of [update], step by step. *)
Lemma update_player (state : KeyState) (g : GameState) (ps : list Platform) (p : Player) :
  fst (update state g ps p) =
  fst (jump state (fst (ground (settled state ps p, g)), g)).
Proof.
  unfold update. destruct (ground (settled state ps p, g)) as [q g'].
  unfold edge. destruct (right q >=? SCREEN_WIDTH); unfold jump; simpl;
    destruct (onGround q && held state SDL_SCANCODE_W); reflexivity.
Qed.

(** The right-edge check looks at the same horizontal extent as before
    the ground check, and has the last word on the game state. *)
Lemma edge_ground_state (p : Player) (g : GameState) :
  snd (edge (ground (p, g))) =
  if right p >=? SCREEN_WIDTH then WinScreen else snd (ground (p, g)).
Proof.
  pose proof (ground_frame p g) as (_ & _ & _ & _ & Hr).
  destruct (ground (p, g)) as [q g']. simpl fst in Hr. simpl snd.
  unfold edge. rewrite Hr. destruct (right p >=? SCREEN_WIDTH); reflexivity.
Qed.

Lemma update_state (state : KeyState) (g : GameState) (ps : list Platform) (p : Player) :
  snd (update state g ps p) =
  if right (settled state ps p) >=? SCREEN_WIDTH then WinScreen
  else snd (ground (settled state ps p, g)).
Proof.
  rewrite <- edge_ground_state.
  unfold update. destruct (edge (ground (settled state ps p, g))) as [q g'].
  apply jump_state.
Qed.

Lemma geb_ge (a b : Z) : a >= b -> (a >=? b) = true.
Proof. intros H. destruct (a >=? b) eqn:E; [reflexivity|lia]. Qed.

Lemma geb_lt (a b : Z) : a < b -> (a >=? b) = false.
Proof. intros H. destruct (a >=? b) eqn:E; [lia|reflexivity]. Qed.
End Steps.

(** C1, as amended.  In a frame in which the bottom edge has reached the
    ground line and the right edge has reached the screen width, the ground
    check comes first and sets [LoseScreen]; the right-edge check comes
    after it and overwrites the state, so the update ends in [WinScreen]. *)
Theorem update_win_overwrites_lose
    (state : KeyState) (g : GameState) (ps : list Platform) (p : Player) :
  bottom (PlayerUpdate.settled state ps p) >= GROUND_LEVEL ->
  right (PlayerUpdate.settled state ps p) >= SCREEN_WIDTH ->
  snd (PlayerUpdate.ground (PlayerUpdate.settled state ps p, g)) = LoseScreen /\
  snd (update state g ps p) = WinScreen.
Proof.
  intros Hlose Hwin. rewrite update_state, (geb_ge _ _ Hwin).
  rewrite (ground_hit _ g Hlose). split; reflexivity.
Qed.

Lemma update_win_overwrites_lose_witness :
  snd (update no_keys GameScreen platforms (newPlayer 750 500 50 50 false)) = WinScreen.
Proof.
  apply (update_win_overwrites_lose no_keys GameScreen platforms (newPlayer 750 500 50 50 false));
    vm_compute; discriminate.
Defined.

(** C1, as stated, fails: a player at the right edge whose bottom edge is on
    the ground line ends the frame in [WinScreen]. *)
Lemma update_lose_does_not_win :
  ~ (forall (state : KeyState) (g : GameState) (ps : list Platform) (p : Player),
        bottom (PlayerUpdate.vertical (PlayerUpdate.horizontal state p)) >= GROUND_LEVEL ->
        bottom (PlayerUpdate.settled state ps p) >= GROUND_LEVEL ->
        right (PlayerUpdate.settled state ps p) >= SCREEN_WIDTH ->
        snd (update state g ps p) = LoseScreen).
Proof.
  intros H.
  assert (E : snd (update no_keys GameScreen platforms (newPlayer 750 500 50 50 false)) = LoseScreen)
    by (apply H; vm_compute; discriminate).
  vm_compute in E. discriminate E.
Qed.

(** C3, as amended.  If the bottom edge is at or below the ground line when
    the ground check is reached (after the move, the vertical integration
    and the platform scan), then after the update the bottom edge is on the
    ground line exactly.  The player is grounded with zero velocity unless
    the jump key is held, in which case the jump fires.  The game state is
    [LoseScreen] unless the right edge has reached the screen width, in
    which case it is [WinScreen]. *)
Theorem update_ground_line
    (state : KeyState) (g : GameState) (ps : list Platform) (p : Player) :
  bottom (PlayerUpdate.settled state ps p) >= GROUND_LEVEL ->
  let p' := fst (update state g ps p) in
  let g' := snd (update state g ps p) in
  bottom p' = GROUND_LEVEL /\
  (held state SDL_SCANCODE_W = false ->
   onGround p' = true /\ velY p' = Float32.of_int 0) /\
  (held state SDL_SCANCODE_W = true ->
   onGround p' = false /\ velY p' = JUMP_SPEED) /\
  (right (PlayerUpdate.settled state ps p) < SCREEN_WIDTH -> g' = LoseScreen) /\
  (right (PlayerUpdate.settled state ps p) >= SCREEN_WIDTH -> g' = WinScreen).
Proof.
  intros Hlose p' g'. subst p' g'.
  rewrite update_player, update_state.
  rewrite (ground_hit _ g Hlose). cbn [fst snd].
  set (q := set_velY _ _).
  assert (Hq : bottom q = GROUND_LEVEL).
  { unfold q, bottom. cbn [rect rect_y rect_h set_velY set_onGround set_y].
    rewrite wrap_sub_add. reflexivity. }
  split; [|split; [|split; [|split]]].
  - unfold bottom in *. destruct (jump_frame state q g) as [-> _]. exact Hq.
  - intros HW. unfold PlayerUpdate.jump. rewrite HW, andb_false_r. split; reflexivity.
  - intros HW. unfold PlayerUpdate.jump. rewrite HW. split; reflexivity.
  - intros Hlt. rewrite (geb_lt _ _ Hlt). reflexivity.
  - intros Hge. rewrite (geb_ge _ _ Hge). reflexivity.
Qed.

Lemma update_ground_line_witness :
  bottom (fst (update no_keys GameScreen platforms (newPlayer 300 500 50 50 false))) = GROUND_LEVEL /\
  snd (update no_keys GameScreen platforms (newPlayer 300 500 50 50 false)) = LoseScreen.
Proof.
  assert (H : bottom (PlayerUpdate.settled no_keys platforms (newPlayer 300 500 50 50 false))
              >= GROUND_LEVEL) by (vm_compute; discriminate).
  destruct (update_ground_line no_keys GameScreen platforms (newPlayer 300 500 50 50 false) H)
    as (Hb & _ & _ & Hl & _).
  split; [exact Hb|]. apply Hl. vm_compute. reflexivity.
Defined.

(** C3, as stated, fails: a player whose bottom edge starts the frame on
    the ground line above the lowest platform is put on that platform, 20
    above the ground line, and the game goes on. *)
Lemma update_ground_line_at_start_fails :
  ~ (forall (state : KeyState) (g : GameState) (ps : list Platform) (p : Player),
        bottom p >= GROUND_LEVEL ->
        bottom (fst (update state g ps p)) = GROUND_LEVEL /\
        onGround (fst (update state g ps p)) = true /\
        velY (fst (update state g ps p)) = Float32.of_int 0 /\
        snd (update state g ps p) = LoseScreen).
Proof.
  intros H.
  assert (Hstart : bottom (newPlayer 0 500 50 50 true) >= GROUND_LEVEL)
    by (vm_compute; discriminate).
  destruct (H no_keys GameScreen platforms (newPlayer 0 500 50 50 true) Hstart)
    as (Hb & _ & _ & Hs).
  vm_compute in Hs. discriminate Hs.
Qed.

(** ** The horizontal move *)

Lemma wrap_cases (z : Z) :
  exists k, Int32.wrap z = z + k * 4294967296 /\
            -2147483648 <= Int32.wrap z <= 2147483647.
Proof.
  exists (- ((z + 2 ^ 31) / 2 ^ 32)). split.
  - unfold Int32.wrap. rewrite Z.mod_eq by lia.
    change (2 ^ 32) with 4294967296. change (2 ^ 31) with 2147483648. lia.
  - exact (wrap_in_range z).
Qed.

Ltac wrap_lia :=
  unfold Int32.add, Int32.sub in *;
  repeat match goal with
         | |- context [Int32.wrap ?z] =>
             let k := fresh "k" in
             let E := fresh "E" in
             let R := fresh "R" in
             destruct (wrap_cases z) as (k & E & R);
             rewrite E in *; clear E
         end;
  unfold Int32.in_range, Int32.min_signed, Int32.max_signed, SCREEN_WIDTH in *;
  simpl Z.pow in *; try lia.

Section Horizontal.
Import PlayerUpdate.

(** With the speed of the constructor the displacement is 3 times the
    difference of the two keys. *)
Lemma moveX_speed3 (state : KeyState) (p : Player) :
  speed p = 3 ->
  moveX state p =
  speed p * (Z.b2z (held state SDL_SCANCODE_D) - Z.b2z (held state SDL_SCANCODE_A)).
Proof.
  intros Hs. unfold moveX. rewrite Hs.
  destruct (held state SDL_SCANCODE_A), (held state SDL_SCANCODE_D); reflexivity.
Qed.

Lemma horizontal_on_screen (state : KeyState) (p : Player) :
  speed p = 3 ->
  Int32.in_range (rect_x (rect p)) -> Int32.in_range (rect_w (rect p)) ->
  0 <= rect_x (rect p) <= SCREEN_WIDTH - rect_w (rect p) ->
  0 <= rect_x (rect (horizontal state p)) <= SCREEN_WIDTH - rect_w (rect p).
Proof.
  intros Hs Hx Hw Hin.
  assert (Hm : -3 <= moveX state p <= 3).
  { rewrite (moveX_speed3 state p Hs), Hs.
    destruct (held state SDL_SCANCODE_A), (held state SDL_SCANCODE_D); simpl; lia. }
  unfold horizontal, right. generalize dependent (moveX state p). intros m Hm.
  cbn [rect rect_x rect_w set_x].
  destruct (Int32.add (rect_x (rect p)) m <? 0) eqn:E1;
    cbn [rect rect_x rect_w set_x].
  - destruct (Int32.add 0 (rect_w (rect p)) >? SCREEN_WIDTH) eqn:E2;
      cbn [rect rect_x rect_w set_x]; [|wrap_lia].
    revert E2. wrap_lia.
  - destruct (Int32.add (Int32.add (rect_x (rect p)) m) (rect_w (rect p)) >? SCREEN_WIDTH) eqn:E2;
      cbn [rect rect_x rect_w set_x]; revert E1 E2; wrap_lia.
Qed.

Lemma horizontal_clamp (state : KeyState) (p : Player) :
  speed p = 3 ->
  Int32.in_range (rect_w (rect p)) ->
  0 <= rect_x (rect p) <= SCREEN_WIDTH - rect_w (rect p) ->
  Int32.in_range (rect_x (rect p) + moveX state p) ->
  rect_x (rect (horizontal state p)) =
  Z.min (SCREEN_WIDTH - rect_w (rect p)) (Z.max 0 (rect_x (rect p) + moveX state p)).
Proof.
  intros Hs Hw Hin Hm.
  assert (Hb : -3 <= moveX state p <= 3).
  { rewrite (moveX_speed3 state p Hs), Hs.
    destruct (held state SDL_SCANCODE_A), (held state SDL_SCANCODE_D); simpl; lia. }
  unfold horizontal, right. generalize dependent (moveX state p). intros m Hm Hb.
  cbn [rect rect_x rect_w set_x].
  destruct (Int32.add (rect_x (rect p)) m <? 0) eqn:E1;
    cbn [rect rect_x rect_w set_x].
  - destruct (Int32.add 0 (rect_w (rect p)) >? SCREEN_WIDTH) eqn:E2;
      cbn [rect rect_x rect_w set_x]; revert E1 E2; wrap_lia.
  - destruct (Int32.add (Int32.add (rect_x (rect p)) m) (rect_w (rect p)) >? SCREEN_WIDTH) eqn:E2;
      cbn [rect rect_x rect_w set_x]; revert E1 E2; wrap_lia.
Qed.

(** Nothing after the horizontal step touches [rect.x] or [rect.w]. *)
Lemma update_x (state : KeyState) (g : GameState) (ps : list Platform) (p : Player) :
  rect_x (rect (fst (update state g ps p))) = rect_x (rect (horizontal state p)) /\
  rect_w (rect (fst (update state g ps p))) = rect_w (rect p) /\
  rect_h (rect (fst (update state g ps p))) = rect_h (rect p) /\
  speed (fst (update state g ps p)) = speed p.
Proof.
  rewrite update_player.
  destruct (jump_frame state (fst (ground (settled state ps p, g))) g) as [-> ->].
  destruct (ground_frame (settled state ps p) g) as (-> & -> & -> & -> & _).
  unfold settled.
  destruct (collide_frame ps (vertical (horizontal state p))) as (-> & -> & -> & ->).
  destruct (vertical_frame (horizontal state p)) as (-> & -> & -> & ->).
  destruct (horizontal_frame state p) as (_ & -> & -> & -> & _).
  repeat split.
Qed.
End Horizontal.

(** C4.  For every keyboard state and every player whose [x] is on the
    screen, after one update [0 <= x <= SCREEN_WIDTH - w]: the horizontal
    step adds [speed * (right - left)] and clamps to that interval, and no
    later step of the update moves [x] or changes [w]. *)
Theorem update_keeps_x_on_screen
    (state : KeyState) (g : GameState) (ps : list Platform) (p : Player) :
  speed p = 3 ->
  Int32.in_range (rect_x (rect p)) ->
  Int32.in_range (rect_w (rect p)) ->
  0 <= rect_x (rect p) <= SCREEN_WIDTH - rect_w (rect p) ->
  let p' := fst (update state g ps p) in
  let dx := speed p * (Z.b2z (held state SDL_SCANCODE_D) - Z.b2z (held state SDL_SCANCODE_A)) in
  0 <= rect_x (rect p') <= SCREEN_WIDTH - rect_w (rect p') /\
  rect_x (rect p') = rect_x (rect (PlayerUpdate.horizontal state p)) /\
  rect_w (rect p') = rect_w (rect p) /\
  (Int32.in_range (rect_x (rect p) + dx) ->
   rect_x (rect p') =
   Z.min (SCREEN_WIDTH - rect_w (rect p)) (Z.max 0 (rect_x (rect p) + dx))).
Proof.
  intros Hs Hx Hw Hin p' dx. subst p' dx.
  destruct (update_x state g ps p) as (-> & -> & _ & _).
  split; [apply horizontal_on_screen; assumption|].
  split; [reflexivity|]. split; [reflexivity|].
  rewrite <- (moveX_speed3 state p Hs). intros Hm.
  apply horizontal_clamp; assumption.
Qed.

Lemma update_keeps_x_on_screen_witness :
  rect_x (rect (fst (update (keys [SDL_SCANCODE_D]) GameScreen platforms
                            (newPlayer 749 340 50 50 true)))) = 750.
Proof.
  destruct (update_keeps_x_on_screen (keys [SDL_SCANCODE_D]) GameScreen platforms
              (newPlayer 749 340 50 50 true))
    as (_ & _ & _ & Hc).
  - reflexivity.
  - vm_compute. split; discriminate.
  - vm_compute. split; discriminate.
  - vm_compute. split; discriminate.
  - rewrite Hc; [reflexivity|]. vm_compute. split; discriminate.
Defined.

(** ** Grounded means at rest *)

(** C9.  After every update, for every input, a grounded player has zero
    vertical velocity: the platform snap and the ground snap zero the
    velocity when they set the flag, and the jump clears the flag when it
    sets the velocity. *)
Theorem update_grounded_at_rest
    (state : KeyState) (g : GameState) (ps : list Platform) (p : Player) :
  onGround (fst (update state g ps p)) = true ->
  velY (fst (update state g ps p)) = Float32.of_int 0.
Proof.
  rewrite update_player.
  set (q := fst (PlayerUpdate.ground (PlayerUpdate.settled state ps p, g))).
  assert (Hq : onGround q = true -> velY q = Float32.of_int 0).
  { apply ground_grounded. apply collide_grounded. }
  unfold PlayerUpdate.jump.
  destruct (onGround q && held state SDL_SCANCODE_W); cbn [fst].
  - cbn [onGround set_velY set_onGround]. discriminate.
  - exact Hq.
Qed.

Lemma update_grounded_at_rest_witness :
  velY (fst (update no_keys GameScreen platforms startPlayer)) = Float32.of_int 0.
Proof.
  apply (update_grounded_at_rest no_keys GameScreen platforms startPlayer).
  reflexivity.
Defined.

(** ** What an update may change *)

Section Frame.
Import PlayerUpdate.

Lemma ground_state (p : Player) (g : GameState) :
  snd (ground (p, g)) = g \/ snd (ground (p, g)) = LoseScreen.
Proof. unfold ground. destruct (bottom p >=? GROUND_LEVEL); auto. Qed.

Lemma update_state_cases (state : KeyState) (g : GameState) (ps : list Platform) (p : Player) :
  snd (update state g ps p) = g \/
  snd (update state g ps p) = WinScreen \/
  snd (update state g ps p) = LoseScreen.
Proof.
  rewrite update_state.
  destruct (right (settled state ps p) >=? SCREEN_WIDTH); [auto|].
  destruct (ground_state (settled state ps p) g) as [-> | ->]; auto.
Qed.

(** Drawing the active screen touches the player and the game state only. *)
Lemma render_frame (state : KeyState) (s : Loop) :
  levelPlatforms (render state s) = levelPlatforms s /\
  isRunning (render state s) = isRunning s /\
  currentMapIndex (render state s) = currentMapIndex s /\
  currentSkinIndex (render state s) = currentSkinIndex s /\
  audioPaused (render state s) = audioPaused s.
Proof.
  unfold render. destruct (gameState s); try (repeat split; reflexivity).
  destruct (update state GameScreen (levelPlatforms s) (player s)) as [p' g'].
  repeat split.
Qed.

Lemma handle_platforms (s : Loop) (e : SDL_Event) :
  levelPlatforms (handle s e) = levelPlatforms s.
Proof.
  destruct e as [|mx my|sym|mx my|]; cbn [handle]; try reflexivity.
  - unfold click. destruct (gameState s);
      repeat match goal with |- context [if ?c then _ else _] => destruct c end;
      reflexivity.
  - destruct (sym =? SDLK_ESCAPE); [|reflexivity].
    destruct (GameState_eqb (gameState s) GameScreen); reflexivity.
Qed.

Lemma fold_handle_platforms (es : list SDL_Event) (s : Loop) :
  levelPlatforms (fold_left handle es s) = levelPlatforms s.
Proof.
  revert s. induction es as [|e es IH]; intros s; simpl; [reflexivity|].
  rewrite IH. apply handle_platforms.
Qed.

Lemma render_update (state : KeyState) (s : Loop) :
  gameState s = GameScreen ->
  player (render state s) = fst (update state GameScreen (levelPlatforms s) (player s)) /\
  gameState (render state s) = snd (update state GameScreen (levelPlatforms s) (player s)).
Proof.
  intros Hg. unfold render. rewrite Hg.
  destruct (update state GameScreen (levelPlatforms s) (player s)) as [p' g'].
  split; reflexivity.
Qed.
End Frame.

(** C10.  An update changes neither the width nor the height of the player
    (nor its speed), and the new game state is the old one, [WinScreen] or
    [LoseScreen].  The platform list is an input of the update only: the
    frame that runs the update, events included, leaves it as it was, and
    so does a whole run of the loop from the initial state. *)
Theorem update_frame_effect :
  (forall (state : KeyState) (g : GameState) (ps : list Platform) (p : Player),
      rect_w (rect (fst (update state g ps p))) = rect_w (rect p) /\
      rect_h (rect (fst (update state g ps p))) = rect_h (rect p) /\
      speed (fst (update state g ps p)) = speed p /\
      (snd (update state g ps p) = g \/
       snd (update state g ps p) = WinScreen \/
       snd (update state g ps p) = LoseScreen)) /\
  (forall (state : KeyState) (s : Loop),
      levelPlatforms (render state s) = levelPlatforms s /\
      isRunning (render state s) = isRunning s /\
      currentMapIndex (render state s) = currentMapIndex s /\
      currentSkinIndex (render state s) = currentSkinIndex s) /\
  (forall (f : Frame) (s : Loop), levelPlatforms (frame f s) = levelPlatforms s).
Proof.
  split; [|split].
  - intros state g ps p.
    destruct (update_x state g ps p) as (_ & Hw & Hh & Hs).
    repeat split; try assumption. apply update_state_cases.
  - intros state s. destruct (render_frame state s) as (H1 & H2 & H3 & H4 & _).
    repeat split; assumption.
  - intros f s. unfold frame.
    destruct (render_frame (keyboard f) (fold_left handle (events f) s)) as (-> & _).
    apply fold_handle_platforms.
Qed.

(** ** The jump *)

(** C6.  The jump rule changes the velocity only for a player that is
    grounded when line 174 is reached: with the key held it then sets the
    jump speed and clears the flag.  For an airborne player the rule does
    nothing, whatever the key, and the velocity the update leaves is the
    old one plus gravity. *)
Theorem jump_only_when_grounded
    (state : KeyState) (g : GameState) (ps : list Platform) (p : Player) :
  let q := fst (PlayerUpdate.ground (PlayerUpdate.settled state ps p, g)) in
  let p' := fst (update state g ps p) in
  p' = fst (PlayerUpdate.jump state (q, g)) /\
  (onGround q = false ->
   p' = q /\ velY p' = Float32.add (velY p) GRAVITY) /\
  (onGround q = true -> held state SDL_SCANCODE_W = true ->
   velY p' = JUMP_SPEED /\ onGround p' = false) /\
  (onGround q = true -> held state SDL_SCANCODE_W = false -> p' = q) /\
  (velY p' <> velY q -> onGround q = true).
Proof.
  intros q p'. subst p'. rewrite update_player. fold q.
  split; [reflexivity|].
  unfold PlayerUpdate.jump. split; [|split; [|split]].
  - intros Hq. rewrite Hq. cbn [andb fst]. split; [reflexivity|].
    subst q. revert Hq. unfold PlayerUpdate.ground.
    destruct (bottom (PlayerUpdate.settled state ps p) >=? GROUND_LEVEL);
      cbn [fst]; [discriminate|].
    unfold PlayerUpdate.settled. intros Hq.
    rewrite (collide_airborne _ _ Hq). cbn [velY set_onGround PlayerUpdate.vertical set_y set_velY].
    destruct (horizontal_frame state p) as (_ & _ & _ & _ & ->). reflexivity.
  - intros Hq HW. rewrite Hq, HW. split; reflexivity.
  - intros Hq HW. rewrite Hq, HW. reflexivity.
  - destruct (onGround q); [reflexivity|]. cbn [andb fst]. intros H. now elim H.
Qed.

Lemma jump_only_when_grounded_witness :
  velY (fst (update (keys [SDL_SCANCODE_W]) GameScreen platforms
                    (newPlayer 300 200 50 50 true)))
  = Float32.add (Float32.of_int 0) GRAVITY /\
  velY (fst (update (keys [SDL_SCANCODE_W]) GameScreen platforms startPlayer)) = JUMP_SPEED.
Proof.
  split.
  - destruct (jump_only_when_grounded (keys [SDL_SCANCODE_W]) GameScreen platforms
                (newPlayer 300 200 50 50 true)) as (_ & Hair & _).
    exact (proj2 (Hair eq_refl)).
  - destruct (jump_only_when_grounded (keys [SDL_SCANCODE_W]) GameScreen platforms
                startPlayer) as (_ & _ & Hj & _).
    exact (proj1 (Hj eq_refl eq_refl)).
Defined.

(** ** The vertical step *)

Section Truncation.
Local Open Scope Q_scope.

(** A finite float with the sign bit set is below zero, one without it is
    not. *)
Lemma to_Q_sign (s : bool) (m : positive) (e : Z) :
  if s then Float32.to_Q (S754_finite s m e) < 0
  else 0 <= Float32.to_Q (S754_finite s m e).
Proof.
  assert (Hpos : (0 < Zpos m * 2 ^ Z.max e 0)%Z).
  { apply Z.mul_pos_pos; [lia|]. apply Z.pow_pos_nonneg; lia. }
  destruct s; unfold Float32.to_Q, Qlt, Qle; cbn [Qnum Qden Float32.num cond_Zopp]; lia.
Qed.

(** The magnitude that [static_cast<int>] keeps is the integer part of
    the magnitude of the float. *)
Lemma shiftl_floor (m : positive) (e : Z) :
  Z.shiftl (Zpos m) e =
  (Zpos m * 2 ^ Z.max e 0 / Zpos (Z.to_pos (2 ^ Z.max (- e) 0)))%Z.
Proof.
  destruct (Z.le_gt_cases 0 e) as [He|He].
  - rewrite Z.shiftl_mul_pow2 by lia.
    rewrite (Z.max_l e 0), (Z.max_r (- e) 0) by lia.
    change (Zpos (Z.to_pos (2 ^ 0))) with 1%Z. now rewrite Z.div_1_r.
  - rewrite Z.shiftl_div_pow2 by lia.
    rewrite (Z.max_r e 0), (Z.max_l (- e) 0) by lia.
    rewrite Z2Pos.id by (apply Z.pow_pos_nonneg; lia).
    now rewrite Z.pow_0_r, Z.mul_1_r.
Qed.

Lemma in_rangeb_true (z : Z) :
  (Int32.min_signed <= z <= Int32.max_signed)%Z -> Int32.in_rangeb z = true.
Proof.
  intros H. unfold Int32.in_rangeb. apply andb_true_iff. split; apply Z.leb_le; lia.
Qed.

(** [static_cast<int>] drops the fraction: it is the floor of a value
    that is not negative and the ceiling of a negative one, as long as
    the result fits an [int]. *)
Lemma to_int_truncates (f : spec_float) :
  Float32.is_finite f = true ->
  (0 <= Float32.to_Q f -> (Qfloor (Float32.to_Q f) <= Int32.max_signed)%Z ->
   Float32.to_int f = Qfloor (Float32.to_Q f)) /\
  (Float32.to_Q f < 0 -> (Int32.min_signed <= Qceiling (Float32.to_Q f))%Z ->
   Float32.to_int f = Qceiling (Float32.to_Q f)).
Proof.
  destruct f as [z| | |s m e]; try discriminate; intros _.
  - split; [reflexivity|]. intros H. discriminate H.
  - pose proof (to_Q_sign s m e) as Hs.
    assert (Hmag : (0 <= Z.shiftl (Zpos m) e)%Z).
    { apply Z.shiftl_nonneg. lia. }
    destruct s; split; intros Hq Hr.
    + exfalso. apply (Qlt_irrefl 0). eapply Qle_lt_trans; eassumption.
    + unfold Qceiling, Float32.to_Q, Qopp, Qfloor in *.
      cbn [Qnum Qden Float32.num Float32.den cond_Zopp Float32.to_int] in *.
      rewrite Z.opp_involutive in *. rewrite <- shiftl_floor in *.
      rewrite in_rangeb_true; [reflexivity|].
      unfold Int32.min_signed, Int32.max_signed in *. lia.
    + unfold Float32.to_Q, Qfloor in *.
      cbn [Qnum Qden Float32.num Float32.den cond_Zopp Float32.to_int] in *.
      rewrite <- shiftl_floor in *.
      rewrite in_rangeb_true; [reflexivity|].
      unfold Int32.min_signed, Int32.max_signed in *. lia.
    + exfalso. apply (Qlt_irrefl 0). eapply Qle_lt_trans; eassumption.
Qed.
End Truncation.

(** C5, as amended.  The vertical step first adds the gravity constant, the
    single-precision number nearest to 0.2, to the vertical velocity with a
    single-precision addition, and then adds to [rect.y] the new velocity
    converted to [int], which drops the fraction: the floor of a velocity
    that is not negative, the ceiling of a negative (upward) one. *)
Theorem vertical_adds_gravity_then_truncates (p : Player) :
  let v := Float32.add (velY p) GRAVITY in
  GRAVITY = SFdiv Float32.prec Float32.emax (Float32.of_int 1) (Float32.of_int 5) /\
  velY (PlayerUpdate.vertical p) = v /\
  rect_y (rect (PlayerUpdate.vertical p)) = Int32.add (rect_y (rect p)) (Float32.to_int v) /\
  (Float32.is_finite v = true ->
   ((0 <= Float32.to_Q v)%Q -> Qfloor (Float32.to_Q v) <= Int32.max_signed ->
    Float32.to_int v = Qfloor (Float32.to_Q v)) /\
   ((Float32.to_Q v < 0)%Q -> Int32.min_signed <= Qceiling (Float32.to_Q v) ->
    Float32.to_int v = Qceiling (Float32.to_Q v))).
Proof.
  intros v. split; [reflexivity|]. split; [reflexivity|]. split; [reflexivity|].
  apply to_int_truncates.
Qed.

Lemma vertical_adds_gravity_then_truncates_witness :
  Float32.to_int (Float32.add JUMP_SPEED GRAVITY)
  = Qceiling (Float32.to_Q (Float32.add JUMP_SPEED GRAVITY)).
Proof.
  destruct (vertical_adds_gravity_then_truncates
              (fst (update (keys [SDL_SCANCODE_W]) GameScreen platforms startPlayer)))
    as (_ & _ & _ & Ht).
  destruct (Ht eq_refl) as [_ Hneg].
  apply Hneg; vm_compute; [reflexivity|discriminate].
Defined.

(** C5, as stated, fails on the frame after a jump: the velocity -6 plus
    gravity is about -5.8, the player moves up by 5 and not by the floor 6. *)
Lemma vertical_does_not_floor :
  ~ (forall p : Player,
        let v := Float32.add (velY p) GRAVITY in
        velY (PlayerUpdate.vertical p) = v /\
        rect_y (rect (PlayerUpdate.vertical p))
        = Int32.add (rect_y (rect p)) (Qfloor (Float32.to_Q v))).
Proof.
  intros H.
  destruct (H (fst (update (keys [SDL_SCANCODE_W]) GameScreen platforms startPlayer)))
    as [_ Hy].
  vm_compute in Hy. discriminate Hy.
Qed.

(** ** The carousels *)

Section CarouselArith.

Lemma previous_mod (i n : Z) :
  0 < n <= Int32.max_signed -> 0 <= i < n ->
  Carousel.previous i n = (i - 1) mod n.
Proof.
  unfold Int32.max_signed. simpl Z.pow. intros Hn Hi.
  pose proof (Z.mod_pos_bound (i - 1) n ltac:(lia)) as Hb.
  unfold Carousel.previous, Size.add, Size.of_int, Size.wrap, Int32.sub.
  rewrite (wrap_small (i - 1))
    by (unfold Int32.in_range, Int32.min_signed, Int32.max_signed; simpl Z.pow; lia).
  assert (E : ((i - 1) mod 2 ^ 64 + n) mod 2 ^ 64 = i - 1 + n).
  { destruct (Z.eq_dec i 0) as [->|Hi0].
    - change ((0 - 1) mod 2 ^ 64) with (2 ^ 64 - 1).
      replace (2 ^ 64 - 1 + n) with (n - 1 + 1 * 2 ^ 64) by ring.
      rewrite Z_mod_plus_full. rewrite Z.mod_small; simpl Z.pow; lia.
    - rewrite (Z.mod_small (i - 1)) by (simpl Z.pow; lia).
      rewrite Z.mod_small; simpl Z.pow; lia. }
  rewrite E. replace (i - 1 + n) with (i - 1 + 1 * n) by ring.
  rewrite Z_mod_plus_full. apply wrap_small.
  unfold Int32.in_range, Int32.min_signed, Int32.max_signed; simpl Z.pow; lia.
Qed.

Lemma next_mod (i n : Z) :
  0 < n <= Int32.max_signed -> 0 <= i < n ->
  Carousel.next i n = (i + 1) mod n.
Proof.
  unfold Int32.max_signed. simpl Z.pow. intros Hn Hi.
  pose proof (Z.mod_pos_bound (i + 1) n ltac:(lia)) as Hb.
  unfold Carousel.next, Size.of_int, Size.wrap, Int32.add.
  rewrite (wrap_small (i + 1))
    by (unfold Int32.in_range, Int32.min_signed, Int32.max_signed; simpl Z.pow; lia).
  rewrite (Z.mod_small (i + 1) (2 ^ 64)) by (simpl Z.pow; lia).
  apply wrap_small.
  unfold Int32.in_range, Int32.min_signed, Int32.max_signed; simpl Z.pow; lia.
Qed.
End CarouselArith.

(** C7, as amended.  On the map carousel (6 entries), from index 0,
    "previous" gives 5 and one "next" brings the index back to 0; a second
    "next" gives 1.  In general, for a list of length [n] and an index in
    [0, n-1], "previous" gives [(i - 1) mod n] and "next" gives
    [(i + 1) mod n], both again in [0, n-1]. *)
Theorem carousel_wraps :
  (currentMapIndex mapScreen0 = 0 /\
   currentMapIndex (clickPrevious mapScreen0) = 5 /\
   currentMapIndex (clickNext (clickPrevious mapScreen0)) = 0 /\
   currentMapIndex (clickNext (clickNext (clickPrevious mapScreen0))) = 1) /\
  (forall i n : Z,
      0 < n <= Int32.max_signed -> 0 <= i < n ->
      Carousel.previous i n = (i - 1) mod n /\
      Carousel.next i n = (i + 1) mod n /\
      0 <= Carousel.previous i n < n /\
      0 <= Carousel.next i n < n).
Proof.
  split; [repeat split|].
  intros i n Hn Hi.
  rewrite (previous_mod i n Hn Hi), (next_mod i n Hn Hi).
  assert (0 < n) by lia.
  repeat split; try apply Z.mod_pos_bound; assumption.
Qed.

Lemma carousel_wraps_witness :
  Carousel.previous 0 skinImagePaths_size = 1 /\ Carousel.next 1 skinImagePaths_size = 0.
Proof.
  destruct carousel_wraps as [_ H].
  assert (Hn : 0 < skinImagePaths_size <= Int32.max_signed) by (vm_compute; split; [reflexivity|discriminate]).
  split.
  - assert (Hi : 0 <= 0 < skinImagePaths_size) by (vm_compute; split; [discriminate|reflexivity]).
    destruct (H 0 skinImagePaths_size Hn Hi) as (-> & _). reflexivity.
  - assert (Hi : 0 <= 1 < skinImagePaths_size) by (vm_compute; split; [discriminate|reflexivity]).
    destruct (H 1 skinImagePaths_size Hn Hi) as (_ & -> & _). reflexivity.
Defined.

(** C7, as stated, fails: after "previous" from 0, two clicks on "next"
    leave the map index at 1, not at 0. *)
Lemma carousel_next_twice_not_back :
  ~ (currentMapIndex (clickPrevious mapScreen0) = 5 /\
     currentMapIndex (clickNext (clickNext (clickPrevious mapScreen0))) = 0).
Proof.
  intros [_ H]. vm_compute in H. discriminate H.
Qed.

(** ** The exit code *)

(** C8, as amended.  The process ends with exit code 1 exactly when the
    initialisation of SDL, SDL_image or SDL_ttf or the creation of the
    window or of the renderer fails.  When these succeed and the audio file
    fails to load (or the audio device to open), [runGameLoop] returns
    before its loop and the process ends with exit code 0. *)
Theorem main_exit_code (env : Env) :
  (startup_fails env <-> main env = Some 1) /\
  (~ startup_fails env -> audio_fails env ->
   main env = Some 0 /\
   (runGameLoop env = Some WavFailed \/ runGameLoop env = Some AudioDeviceFailed)).
Proof.
  unfold startup_fails, audio_fails, main, runGameLoop.
  destruct (SDL_Init env <? 0) eqn:E1;
    [split; [split; [reflexivity|apply Z.ltb_lt in E1; auto]|intros H; exfalso; apply H; apply Z.ltb_lt in E1; auto]|].
  apply Z.ltb_ge in E1.
  destruct (Z.land (IMG_Init env) IMG_INIT_PNG =? 0) eqn:E2;
    [split; [split; [reflexivity|apply Z.eqb_eq in E2; auto]|intros H; exfalso; apply H; apply Z.eqb_eq in E2; auto]|].
  apply Z.eqb_neq in E2.
  destruct (TTF_Init env =? -1) eqn:E3;
    [split; [split; [reflexivity|apply Z.eqb_eq in E3; auto]|intros H; exfalso; apply H; apply Z.eqb_eq in E3; auto]|].
  apply Z.eqb_neq in E3.
  destruct (SDL_CreateWindow env) eqn:E4; cbn [negb];
    [|split; [split; [reflexivity|auto]|intros H; exfalso; apply H; auto 6]].
  destruct (SDL_CreateRenderer env) eqn:E5; cbn [negb];
    [|split; [split; [reflexivity|auto 6]|intros H; exfalso; apply H; auto 6]].
  split.
  - split.
    + intros [H|[H|[H|[H|H]]]]; try discriminate; lia.
    + destruct (SDL_LoadWAV env); cbn [negb]; [|discriminate].
      destruct (SDL_OpenAudioDevice env =? 0); [discriminate|].
      destruct (loop (frames env) initialLoop); discriminate.
  - intros _ [Hw|Ha].
    + rewrite Hw. cbn [negb]. auto.
    + rewrite Ha. destruct (SDL_LoadWAV env); cbn [negb]; auto.
Qed.

Lemma main_exit_code_witness : main noWavEnv = Some 0.
Proof.
  destruct (main_exit_code noWavEnv) as [_ H].
  apply H.
  - intros [H1|[H1|[H1|[H1|H1]]]]; vm_compute in H1; discriminate H1.
  - left. reflexivity.
Defined.

(** C8, as stated, fails: a missing audio file ends the process with exit
    code 0. *)
Lemma main_wav_failure_exits_0 :
  ~ (forall env : Env, startup_fails env \/ SDL_LoadWAV env = false -> main env = Some 1).
Proof.
  intros H. specialize (H noWavEnv (or_intror eq_refl)).
  vm_compute in H. discriminate H.
Qed.

(** * Further properties of the code *)

(** ** More on [Player::update] *)

Section UpdateMore.
Import PlayerUpdate.

Lemma wrap_add_sub (a h : Z) : Int32.sub (Int32.add a h) h = Int32.wrap a.
Proof.
  unfold Int32.add, Int32.sub, Int32.wrap.
  replace ((a + h + 2 ^ 31) mod 2 ^ 32 - 2 ^ 31 - h + 2 ^ 31)
    with ((a + h + 2 ^ 31) mod 2 ^ 32 + - h) by ring.
  rewrite Zplus_mod_idemp_l. f_equal. f_equal. ring.
Qed.

Lemma GROUND_LEVEL_eq : GROUND_LEVEL = 550.
Proof. reflexivity. Qed.

(** The bottom edge that the ground check leaves. *)
Lemma ground_bottom (p : Player) (g : GameState) :
  bottom (fst (ground (p, g))) =
  if bottom p >=? GROUND_LEVEL then GROUND_LEVEL else bottom p.
Proof.
  unfold ground. destruct (bottom p >=? GROUND_LEVEL); [|reflexivity].
  unfold bottom. cbn [fst rect rect_y rect_h set_velY set_onGround set_y].
  rewrite wrap_sub_add. reflexivity.
Qed.

Lemma update_rect (state : KeyState) (g : GameState) (ps : list Platform) (p : Player) :
  rect (fst (update state g ps p)) = rect (fst (ground (settled state ps p, g))).
Proof. rewrite update_player. apply jump_frame. Qed.

Lemma update_bottom (state : KeyState) (g : GameState) (ps : list Platform) (p : Player) :
  bottom (fst (update state g ps p)) =
  if bottom (settled state ps p) >=? GROUND_LEVEL then GROUND_LEVEL
  else bottom (settled state ps p).
Proof.
  rewrite <- ground_bottom with (g := g). unfold bottom. now rewrite update_rect.
Qed.

Lemma settled_right (state : KeyState) (ps : list Platform) (p : Player) :
  right (settled state ps p) = right (horizontal state p).
Proof.
  unfold settled, right.
  destruct (collide_frame ps (vertical (horizontal state p))) as (-> & -> & _).
  reflexivity.
Qed.

Lemma update_right (state : KeyState) (g : GameState) (ps : list Platform) (p : Player) :
  right (fst (update state g ps p)) = right (horizontal state p).
Proof.
  rewrite <- settled_right with (ps := ps). unfold right. rewrite update_rect.
  destruct (ground_frame (settled state ps p) g) as (-> & -> & _). reflexivity.
Qed.

(** The game state that an update leaves, from the player as the checks
    find it. *)
Lemma update_state_full (state : KeyState) (g : GameState) (ps : list Platform) (p : Player) :
  snd (update state g ps p) =
  if right (horizontal state p) >=? SCREEN_WIDTH then WinScreen
  else if bottom (settled state ps p) >=? GROUND_LEVEL then LoseScreen
  else g.
Proof.
  rewrite update_state, settled_right.
  destruct (right (horizontal state p) >=? SCREEN_WIDTH); [reflexivity|].
  unfold ground. destruct (bottom (settled state ps p) >=? GROUND_LEVEL); reflexivity.
Qed.

(** A player at rest does not sink: zero plus gravity converts to 0. *)
Lemma rest_displacement : Float32.to_int (Float32.add (Float32.of_int 0) GRAVITY) = 0.
Proof. reflexivity. Qed.

Lemma update_rest (state : KeyState) (g : GameState) (ps : list Platform) (p : Player) :
  onGround (fst (update state g ps p)) = true ->
  velY (fst (update state g ps p)) = Float32.of_int 0.
Proof.
  rewrite update_player.
  set (q := fst (ground (settled state ps p, g))).
  assert (Hq : onGround q = true -> velY q = Float32.of_int 0)
    by (apply ground_grounded, collide_grounded).
  unfold jump. destruct (onGround q && held state SDL_SCANCODE_W); cbn [fst].
  - cbn [onGround set_velY set_onGround]. discriminate.
  - exact Hq.
Qed.
End UpdateMore.

(** X1.  Whatever the keys, the platforms and the player, the bottom edge
    that an update leaves is never below the ground line. *)
Theorem update_never_below_ground
    (state : KeyState) (g : GameState) (ps : list Platform) (p : Player) :
  bottom (fst (update state g ps p)) <= GROUND_LEVEL.
Proof.
  rewrite update_bottom.
  destruct (bottom (PlayerUpdate.settled state ps p) >=? GROUND_LEVEL) eqn:E; lia.
Qed.

(** X2.  For a player on the screen the update declares the win exactly
    when the horizontal step has put the player against the right wall
    ([x = SCREEN_WIDTH - w]), whatever happens vertically in that frame. *)
Theorem update_wins_at_right_wall
    (state : KeyState) (g : GameState) (ps : list Platform) (p : Player) :
  speed p = 3 ->
  0 <= rect_w (rect p) ->
  0 <= rect_x (rect p) <= SCREEN_WIDTH - rect_w (rect p) ->
  g <> WinScreen ->
  (snd (update state g ps p) = WinScreen <->
   rect_x (rect (fst (update state g ps p))) = SCREEN_WIDTH - rect_w (rect p)).
Proof.
  intros Hs Hw Hin Hg.
  assert (Hxr : Int32.in_range (rect_x (rect p)))
    by (unfold Int32.in_range, Int32.min_signed, Int32.max_signed, SCREEN_WIDTH in *;
        simpl Z.pow; lia).
  assert (Hwr : Int32.in_range (rect_w (rect p)))
    by (unfold Int32.in_range, Int32.min_signed, Int32.max_signed, SCREEN_WIDTH in *;
        simpl Z.pow; lia).
  pose proof (horizontal_on_screen state p Hs Hxr Hwr Hin) as Hx'.
  destruct (update_x state g ps p) as (-> & _).
  rewrite update_state_full. unfold right, Int32.add.
  destruct (horizontal_frame state p) as (_ & -> & _).
  rewrite (wrap_small (rect_x (rect (PlayerUpdate.horizontal state p)) + rect_w (rect p)))
    by (unfold Int32.in_range, Int32.min_signed, Int32.max_signed, SCREEN_WIDTH in *;
        simpl Z.pow; lia).
  destruct (_ >=? SCREEN_WIDTH) eqn:E.
  - split; [intros _; lia|reflexivity].
  - split; [|intros; lia].
    destruct (bottom _ >=? GROUND_LEVEL); [discriminate|]. intros ->. now elim Hg.
Qed.

Lemma update_wins_at_right_wall_witness :
  snd (update (keys [SDL_SCANCODE_D]) GameScreen platforms (newPlayer 748 340 50 50 true))
  = WinScreen.
Proof.
  apply (update_wins_at_right_wall (keys [SDL_SCANCODE_D]) GameScreen platforms
           (newPlayer 748 340 50 50 true)).
  - reflexivity.
  - vm_compute. discriminate.
  - vm_compute. split; discriminate.
  - discriminate.
  - vm_compute. reflexivity.
Defined.

(** X3.  A player at rest on a platform of the game stays there: when its
    bottom edge is on the top of the platform, its velocity is zero and,
    after the horizontal move, it still overlaps the platform, the update
    leaves [rect.y] as it was.  Without the jump key the player is grounded
    with zero velocity; with it, the player leaves with the jump speed.
    The game goes on unless the right wall is reached. *)
Theorem update_rest_on_platform
    (state : KeyState) (g : GameState) (P : Platform) (p : Player) :
  In P platforms ->
  velY p = Float32.of_int 0 ->
  Int32.in_range (rect_y (rect p)) ->
  bottom p = rect_y (getRect P) ->
  right (PlayerUpdate.horizontal state p) > rect_x (getRect P) ->
  rect_x (rect (PlayerUpdate.horizontal state p))
  < Int32.add (rect_x (getRect P)) (rect_w (getRect P)) ->
  let p' := fst (update state g platforms p) in
  rect_y (rect p') = rect_y (rect p) /\
  (held state SDL_SCANCODE_W = false ->
   onGround p' = true /\ velY p' = Float32.of_int 0) /\
  (held state SDL_SCANCODE_W = true ->
   onGround p' = false /\ velY p' = JUMP_SPEED) /\
  (right (PlayerUpdate.horizontal state p) < SCREEN_WIDTH ->
   snd (update state g platforms p) = g).
Proof.
  intros HP Hv Hy Hb Hr Hl p'.
  set (q := PlayerUpdate.vertical (PlayerUpdate.horizontal state p)).
  destruct (horizontal_frame state p) as (Hhy & Hhw & Hhh & _ & Hhv).
  assert (Hqy : rect_y (rect q) = rect_y (rect p)).
  { unfold q, PlayerUpdate.vertical. cbn [rect rect_y set_y set_velY velY].
    rewrite Hhv, Hv, rest_displacement, Hhy.
    unfold Int32.add. rewrite Z.add_0_r. now apply wrap_small. }
  assert (Hqh : rect_h (rect q) = rect_h (rect p)).
  { unfold q. destruct (vertical_frame (PlayerUpdate.horizontal state p)) as (_ & _ & -> & _).
    exact Hhh. }
  assert (Hqx : rect_x (rect q) = rect_x (rect (PlayerUpdate.horizontal state p))).
  { unfold q. apply vertical_frame. }
  assert (Hqr : right q = right (PlayerUpdate.horizontal state p)).
  { unfold right, q.
    destruct (vertical_frame (PlayerUpdate.horizontal state p)) as (-> & -> & _).
    reflexivity. }
  assert (Hqb : bottom q = rect_y (getRect P)).
  { unfold bottom in *. now rewrite Hqy, Hqh. }
  destruct (platforms_tops P HP) as [Hband Htops].
  assert (Hland : PlayerUpdate.lands_on q (getRect P) = true).
  { unfold PlayerUpdate.lands_on. rewrite Hqb, Hband.
    repeat (apply andb_true_iff; split).
    - apply geb_ge. lia.
    - apply Z.leb_le. lia.
    - apply Z.gtb_lt. rewrite Hqr. lia.
    - apply Z.ltb_lt. rewrite Hqx. exact Hl. }
  destruct (collide_first platforms P q HP Hland) as (before & F & after & Hps & _ & HlF & Hc).
  assert (HF : In F platforms) by (rewrite Hps; apply in_elt).
  pose proof (platforms_same_top P F q HP HF Hland HlF) as Htop.
  assert (Hs : PlayerUpdate.settled state platforms p
               = PlayerUpdate.snap (set_onGround q false) (getRect F)).
  { unfold PlayerUpdate.settled. fold q. exact Hc. }
  assert (Hsy : rect_y (rect (PlayerUpdate.settled state platforms p)) = rect_y (rect p)).
  { rewrite Hs. unfold PlayerUpdate.snap.
    cbn [rect rect_y rect_h set_y set_onGround set_velY].
    rewrite Htop, <- Hb, Hqh. unfold bottom. rewrite wrap_add_sub. now apply wrap_small. }
  assert (Hsb : bottom (PlayerUpdate.settled state platforms p) < GROUND_LEVEL).
  { rewrite Hs.
    destruct (snap_fields (set_onGround q false) (getRect F)) as (_ & _ & -> & _).
    rewrite Htop, GROUND_LEVEL_eq. rewrite wrap_small;
      unfold Int32.in_range, Int32.min_signed, Int32.max_signed; simpl Z.pow; lia. }
  assert (Hg : PlayerUpdate.ground (PlayerUpdate.settled state platforms p, g)
               = (PlayerUpdate.settled state platforms p, g)).
  { unfold PlayerUpdate.ground. now rewrite (geb_lt _ _ Hsb). }
  subst p'. rewrite update_player, update_state_full, Hg. cbn [fst].
  rewrite (geb_lt _ _ Hsb).
  destruct (snap_fields (set_onGround q false) (getRect F)) as (Hog & Hvel & _).
  rewrite <- Hs in Hog, Hvel. clear Hs Hg Hsb Hc.
  generalize dependent (PlayerUpdate.settled state platforms p). intros r Hsy Hog Hvel.
  unfold PlayerUpdate.jump. rewrite Hog. cbn [andb].
  split; [|split; [|split]].
  - destruct (held state SDL_SCANCODE_W);
      cbn [fst rect rect_y set_velY set_onGround]; exact Hsy.
  - intros ->. cbn [fst]. auto.
  - intros ->. cbn [fst onGround velY set_velY set_onGround]. split; reflexivity.
  - intros Hlt. now rewrite (geb_lt _ _ Hlt).
Qed.

Lemma update_rest_on_platform_witness :
  rect_y (rect (fst (update (keys [SDL_SCANCODE_D]) GameScreen platforms startPlayer))) = 480.
Proof.
  assert (HP : In (mkPlatform (mkRect 0 530 150 20)) platforms) by (left; reflexivity).
  destruct (update_rest_on_platform (keys [SDL_SCANCODE_D]) GameScreen _ startPlayer HP)
    as (Hy & _).
  - reflexivity.
  - vm_compute. split; discriminate.
  - reflexivity.
  - vm_compute. reflexivity.
  - vm_compute. reflexivity.
  - exact Hy.
Defined.

(** ** More on the carousels *)

Section CarouselMore.

Lemma next_times_mod (k : nat) (i n : Z) :
  0 < n <= Int32.max_signed -> 0 <= i < n ->
  next_times k i n = (i + Z.of_nat k) mod n.
Proof.
  intros Hn Hi. induction k as [|k IH].
  - cbn [next_times]. rewrite Z.add_0_r, Z.mod_small; lia.
  - cbn [next_times]. rewrite IH.
    rewrite next_mod by (try apply Z.mod_pos_bound; lia).
    rewrite Zplus_mod_idemp_l. f_equal. lia.
Qed.
End CarouselMore.

(** X4.  On an index of the list, "previous" and "next" undo each other. *)
Theorem carousel_round_trip (i n : Z) :
  0 < n <= Int32.max_signed -> 0 <= i < n ->
  Carousel.next (Carousel.previous i n) n = i /\
  Carousel.previous (Carousel.next i n) n = i.
Proof.
  intros Hn Hi.
  assert (Hp : 0 <= (i - 1) mod n < n) by (apply Z.mod_pos_bound; lia).
  assert (Hq : 0 <= (i + 1) mod n < n) by (apply Z.mod_pos_bound; lia).
  rewrite (previous_mod i n Hn Hi), (next_mod i n Hn Hi).
  rewrite (next_mod _ n Hn Hp), (previous_mod _ n Hn Hq).
  rewrite Zplus_mod_idemp_l, Zminus_mod_idemp_l.
  replace (i - 1 + 1) with i by ring. replace (i + 1 - 1) with i by ring.
  split; apply Z.mod_small; assumption.
Qed.

Lemma carousel_round_trip_witness :
  Carousel.next (Carousel.previous 0 mapImagePaths_size) mapImagePaths_size = 0.
Proof.
  apply (carousel_round_trip 0 mapImagePaths_size); vm_compute; split;
    first [reflexivity|discriminate].
Defined.

(** X5.  As many clicks on "next" as the list has entries bring every
    index back to itself, and one click on "previous" is as good as one
    click less than that on "next". *)
Theorem carousel_full_cycle (i n : Z) :
  0 < n <= Int32.max_signed -> 0 <= i < n ->
  next_times (Z.to_nat n) i n = i /\
  next_times (Z.to_nat (n - 1)) i n = Carousel.previous i n.
Proof.
  intros Hn Hi.
  rewrite !next_times_mod, (previous_mod i n) by assumption.
  rewrite !Z2Nat.id by lia. split.
  - replace (i + n) with (i + 1 * n) by ring.
    rewrite Z_mod_plus_full. apply Z.mod_small. assumption.
  - replace (i + (n - 1)) with (i - 1 + 1 * n) by ring.
    apply Z_mod_plus_full.
Qed.

Lemma carousel_full_cycle_witness :
  next_times 6 3 mapImagePaths_size = 3.
Proof.
  apply (carousel_full_cycle 3 mapImagePaths_size); vm_compute; split;
    first [reflexivity|discriminate].
Defined.

(** ** The buttons *)

Section Buttons.







End Buttons.



(** ** The screens *)

Section Screens.

Lemma click_edge (x y : Z) (s : Loop) :
  gameState (click x y s) = gameState s \/
  event_edge (gameState s) (gameState (click x y s)) = true.
Proof.
  unfold click. destruct (gameState s) eqn:Hg;
    repeat match goal with |- context [if ?c then _ else _] => destruct c end;
    cbn [gameState set_gameState set_audioPaused set_isRunning set_currentMapIndex
         set_currentSkinIndex set_player];
    rewrite ?Hg; auto.
Qed.

Lemma handle_edge (s : Loop) (e : SDL_Event) :
  gameState (handle s e) = gameState s \/
  event_edge (gameState s) (gameState (handle s e)) = true.
Proof.
  destruct e as [|x y|sym|x y|]; cbn [handle]; auto.
  - apply click_edge.
  - destruct (sym =? SDLK_ESCAPE); auto.
    destruct (gameState s) eqn:Hg; cbn [GameState_eqb]; auto.
Qed.

Lemma render_edge (state : KeyState) (s : Loop) :
  gameState (render state s) = gameState s \/
  (gameState s = GameScreen /\
   (gameState (render state s) = WinScreen \/ gameState (render state s) = LoseScreen)).
Proof.
  destruct (gameState s) eqn:Hg; try (left; unfold render; rewrite Hg; exact Hg).
  destruct (render_update state s Hg) as [_ ->].
  destruct (update_state_cases state GameScreen (levelPlatforms s) (player s))
    as [->| [->| ->]]; auto.
Qed.

(** No event starts the loop again. *)
Lemma handle_stopped (s : Loop) (e : SDL_Event) :
  isRunning s = false -> isRunning (handle s e) = false.
Proof.
  intros Hr. destruct e as [|x y|sym|x y|]; cbn [handle]; auto.
  - unfold click. destruct (gameState s);
      repeat match goal with |- context [if ?c then _ else _] => destruct c end;
      auto.
  - destruct (sym =? SDLK_ESCAPE); auto.
    destruct (GameState_eqb (gameState s) GameScreen); auto.
Qed.

Lemma fold_handle_stopped (es : list SDL_Event) (s : Loop) :
  isRunning s = false -> isRunning (fold_left handle es s) = false.
Proof.
  revert s. induction es as [|e es IH]; intros s Hr; cbn [fold_left]; auto.
  apply IH, handle_stopped, Hr.
Qed.

Lemma fold_handle_quit (es : list SDL_Event) (s : Loop) :
  In SDL_QUIT es -> isRunning (fold_left handle es s) = false.
Proof.
  revert s. induction es as [|e es IH]; intros s; cbn [fold_left In]; [intros []|].
  intros [->|Hin]; [|auto].
  apply fold_handle_stopped. reflexivity.
Qed.

Lemma frame_quit (f : Frame) (s : Loop) :
  has_quit f -> isRunning (frame f s) = false.
Proof.
  intros Hq. unfold frame.
  destruct (render_frame (keyboard f) (fold_left handle (events f) s)) as (_ & -> & _).
  apply fold_handle_quit, Hq.
Qed.

Lemma loop_stopped (fs : list Frame) (s : Loop) :
  isRunning s = false -> loop fs s = Some s.
Proof. intros Hr. destruct fs; cbn [loop]; rewrite Hr; reflexivity. Qed.

Lemma loop_ends_stopped (fs : list Frame) (s s' : Loop) :
  loop fs s = Some s' -> isRunning s' = false.
Proof.
  revert s. induction fs as [|f fs IH]; intros s; cbn [loop];
    destruct (isRunning s) eqn:Hr; try discriminate.
  - intros [= <-]. exact Hr.
  - apply IH.
  - intros [= <-]. exact Hr.
Qed.

Lemma loop_cons (f : Frame) (fs : list Frame) (s : Loop) :
  loop (f :: fs) s = if isRunning s then loop fs (frame f s) else Some s.
Proof. reflexivity. Qed.

Lemma loop_quit (pre post : list Frame) (f : Frame) (s : Loop) :
  has_quit f ->
  exists s', loop (pre ++ f :: post) s = Some s' /\ loop (pre ++ [f]) s = Some s'.
Proof.
  intros Hq. revert s. induction pre as [|f0 pre IH]; intros s.
  - cbn [app]. rewrite !loop_cons. destruct (isRunning s) eqn:Hr.
    + exists (frame f s).
      rewrite (loop_stopped post (frame f s) (frame_quit f s Hq)).
      rewrite (loop_stopped [] (frame f s) (frame_quit f s Hq)). split; reflexivity.
    + exists s. split; reflexivity.
  - cbn [app]. rewrite !loop_cons. destruct (isRunning s) eqn:Hr.
    + apply IH.
    + exists s. split; reflexivity.
Qed.
End Screens.

(** X7.  One event changes the screen only along the edges of the menu:
    from the main menu to the game, the skin or the map screen; from the
    skin, map and win screens back to the main menu; from the lose screen
    to the game; from the game (Escape) to the main menu.  In particular no
    event leads to the win or the lose screen: only the update of a frame
    drawn on the game screen does. *)
Theorem screens_change_along_edges (s : Loop) :
  (forall e : SDL_Event,
      gameState (handle s e) = gameState s \/
      event_edge (gameState s) (gameState (handle s e)) = true) /\
  (forall e : SDL_Event,
      gameState (handle s e) = WinScreen \/ gameState (handle s e) = LoseScreen ->
      gameState (handle s e) = gameState s) /\
  (forall state : KeyState,
      gameState (render state s) = gameState s \/
      (gameState s = GameScreen /\
       (gameState (render state s) = WinScreen \/
        gameState (render state s) = LoseScreen))).
Proof.
  split; [|split].
  - intros e. apply handle_edge.
  - intros e Hwl. destruct (handle_edge s e) as [H|H]; [exact H|].
    exfalso. destruct Hwl as [Hw|Hw]; rewrite Hw in H;
      destruct (gameState s); discriminate H.
  - intros state. apply render_edge.
Qed.

Lemma screens_change_along_edges_witness :
  gameState (handle (set_gameState initialLoop WinScreen) (SDL_MOUSEBUTTONDOWN 0 0)) = WinScreen.
Proof.
  destruct (screens_change_along_edges (set_gameState initialLoop WinScreen)) as (_ & H & _).
  apply (H (SDL_MOUSEBUTTONDOWN 0 0)). left. reflexivity.
Defined.

(** X8.  The window-close event ends the loop on every screen: when a
    frame delivers it, the loop returns at the end of that frame at the
    latest, with [isRunning] false, and the frames after it are not
    looked at. *)
Theorem quit_ends_loop (pre post : list Frame) (f : Frame) (s : Loop) :
  has_quit f ->
  exists s',
    loop (pre ++ f :: post) s = Some s' /\
    loop (pre ++ [f]) s = Some s' /\
    isRunning s' = false.
Proof.
  intros Hq. destruct (loop_quit pre post f s Hq) as (s' & H1 & H2).
  exists s'. repeat split; try assumption. eapply loop_ends_stopped, H1.
Qed.

Lemma quit_ends_loop_witness :
  exists s',
    loop ([mkFrame [] no_keys] ++ mkFrame [SDL_OTHER; SDL_QUIT] no_keys :: [mkFrame [] no_keys])
         initialLoop = Some s' /\
    loop ([mkFrame [] no_keys] ++ [mkFrame [SDL_OTHER; SDL_QUIT] no_keys]) initialLoop = Some s' /\
    isRunning s' = false.
Proof.
  apply (quit_ends_loop [mkFrame [] no_keys] [mkFrame [] no_keys]
           (mkFrame [SDL_OTHER; SDL_QUIT] no_keys) initialLoop).
  right. left. reflexivity.
Defined.

(** X9.  When the start-up and the audio set-up succeed and some frame
    delivers the window-close event, the process ends with exit code 0;
    and no run of [main] ends with a code other than 0 or 1. *)
Theorem main_returns_0_on_quit (env : Env) :
  (~ startup_fails env -> ~ audio_fails env ->
   (exists f, In f (frames env) /\ has_quit f) ->
   main env = Some 0) /\
  (forall code : Z, main env = Some code -> code = 0 \/ code = 1).
Proof.
  split.
  - intros Hs Ha (f & Hin & Hq).
    unfold startup_fails, audio_fails in *. unfold main, runGameLoop.
    destruct (SDL_Init env <? 0) eqn:E1; [apply Z.ltb_lt in E1; tauto|].
    destruct (Z.land (IMG_Init env) IMG_INIT_PNG =? 0) eqn:E2; [apply Z.eqb_eq in E2; tauto|].
    destruct (TTF_Init env =? -1) eqn:E3; [apply Z.eqb_eq in E3; tauto|].
    destruct (SDL_CreateWindow env); [|tauto].
    destruct (SDL_CreateRenderer env); [|tauto].
    destruct (SDL_LoadWAV env); [|tauto].
    destruct (SDL_OpenAudioDevice env =? 0) eqn:E4; [apply Z.eqb_eq in E4; tauto|].
    cbn [negb]. apply in_split in Hin. destruct Hin as (pre & post & ->).
    destruct (loop_quit pre post f initialLoop Hq) as (s' & -> & _). reflexivity.
  - intros code. unfold main.
    repeat match goal with
           | |- context [if ?c then _ else _] => destruct c
           end; first [discriminate | intros [= <-]; auto].
Qed.

Lemma main_returns_0_on_quit_witness :
  main (goodEnv [mkFrame [SDL_QUIT] no_keys]) = Some 0.
Proof.
  destruct (main_returns_0_on_quit (goodEnv [mkFrame [SDL_QUIT] no_keys])) as [H _].
  apply H.
  - intros [H1|[H1|[H1|[H1|H1]]]]; vm_compute in H1; discriminate H1.
  - intros [H1|H1]; vm_compute in H1; discriminate H1.
  - exists (mkFrame [SDL_QUIT] no_keys). split; left; reflexivity.
Defined.

(** ** An invariant of the loop *)

Section Invariant.

Lemma startPlayer_on_stage : on_stage startPlayer.
Proof.
  unfold on_stage. split; [reflexivity|]. split; [reflexivity|]. split; [reflexivity|].
  split; [vm_compute; split; discriminate|]. split; [vm_compute; discriminate|].
  intros _. reflexivity.
Qed.

Lemma startPlayer_in_play :
  bottom startPlayer < GROUND_LEVEL /\ right startPlayer < SCREEN_WIDTH.
Proof. vm_compute. split; reflexivity. Qed.

Lemma map_index_kept (i : Z) :
  0 <= i < mapImagePaths_size ->
  0 <= Carousel.previous i mapImagePaths_size < mapImagePaths_size /\
  0 <= Carousel.next i mapImagePaths_size < mapImagePaths_size.
Proof.
  intros Hi.
  assert (Hn : 0 < mapImagePaths_size <= Int32.max_signed)
    by (vm_compute; split; [reflexivity|discriminate]).
  rewrite (previous_mod _ _ Hn Hi), (next_mod _ _ Hn Hi).
  split; apply Z.mod_pos_bound; lia.
Qed.

Lemma skin_index_kept (i : Z) :
  0 <= i < skinImagePaths_size ->
  0 <= Carousel.previous i skinImagePaths_size < skinImagePaths_size /\
  0 <= Carousel.next i skinImagePaths_size < skinImagePaths_size.
Proof.
  intros Hi.
  assert (Hn : 0 < skinImagePaths_size <= Int32.max_signed)
    by (vm_compute; split; [reflexivity|discriminate]).
  rewrite (previous_mod _ _ Hn Hi), (next_mod _ _ Hn Hi).
  split; apply Z.mod_pos_bound; lia.
Qed.

Lemma loop_inv_initial : loop_inv initialLoop.
Proof.
  unfold loop_inv, initialLoop. cbn [player currentMapIndex currentSkinIndex
                                      levelPlatforms gameState audioPaused].
  split; [exact startPlayer_on_stage|].
  split; [vm_compute; split; [discriminate|reflexivity]|].
  split; [vm_compute; split; [discriminate|reflexivity]|].
  split; reflexivity.
Qed.

Ltac loop_fields :=
  cbn [player currentMapIndex currentSkinIndex levelPlatforms gameState audioPaused
       isRunning set_gameState set_isRunning set_currentMapIndex set_currentSkinIndex
       set_player set_audioPaused].

Lemma click_inv (x y : Z) (s : Loop) : loop_inv s -> loop_inv (click x y s).
Proof.
  destruct s as [g r mi si p ps ap]. unfold loop_inv. loop_fields.
  intros (Hp & Hmi & Hsi & Hps & Hg).
  pose proof startPlayer_on_stage as Hstage.
  pose proof startPlayer_in_play as [Hsb Hsr].
  destruct (map_index_kept mi Hmi) as [Hmp Hmn].
  destruct (skin_index_kept si Hsi) as [Hsp Hsn].
  unfold click. loop_fields.
  destruct g;
    repeat match goal with |- context [if ?c then _ else _] => destruct c end;
    loop_fields;
    (split; [|split; [|split; [|split]]]); try assumption; try reflexivity;
    try (subst p; split; [assumption|split; [assumption|reflexivity]]).
  split; [assumption|split; [assumption|apply Hg]].
Qed.

Lemma handle_inv (s : Loop) (e : SDL_Event) : loop_inv s -> loop_inv (handle s e).
Proof.
  destruct e as [|x y|sym|x y|]; cbn [handle]; try (intros Hinv; exact Hinv).
  - apply click_inv.
  - intros Hinv. destruct (sym =? SDLK_ESCAPE); [|exact Hinv].
    destruct (GameState_eqb (gameState s) GameScreen); [|exact Hinv].
    destruct s as [g r mi si p ps ap]. unfold loop_inv in *. loop_fields.
    destruct Hinv as (_ & Hmi & Hsi & Hps & _).
    split; [exact startPlayer_on_stage|]. auto.
Qed.

Lemma update_on_stage (state : KeyState) (g : GameState) (ps : list Platform) (p : Player) :
  on_stage p -> on_stage (fst (update state g ps p)).
Proof.
  intros (Hs & Hw & Hh & Hx & Hb & Hrest). unfold on_stage.
  destruct (update_x state g ps p) as (Ex & Ew & Eh & Es).
  rewrite Ex, Ew, Eh, Es.
  split; [assumption|]. split; [assumption|]. split; [assumption|].
  split; [|split].
  - rewrite <- Hw. apply horizontal_on_screen; try assumption.
    + unfold Int32.in_range, Int32.min_signed, Int32.max_signed, SCREEN_WIDTH in *.
      simpl Z.pow. lia.
    + rewrite Hw. unfold Int32.in_range, Int32.min_signed, Int32.max_signed.
      simpl Z.pow. lia.
    + rewrite Hw. assumption.
  - rewrite update_bottom.
    destruct (bottom (PlayerUpdate.settled state ps p) >=? GROUND_LEVEL) eqn:E; lia.
  - apply update_rest.
Qed.

(** The right edge after the horizontal step, for a player of the loop. *)
Lemma stage_right (state : KeyState) (p : Player) :
  on_stage p -> right (PlayerUpdate.horizontal state p) <= SCREEN_WIDTH.
Proof.
  intros (Hs & Hw & Hh & Hx & _).
  assert (Hh' : 0 <= rect_x (rect (PlayerUpdate.horizontal state p))
                 <= SCREEN_WIDTH - rect_w (rect p)).
  { apply horizontal_on_screen; try assumption.
    - unfold Int32.in_range, Int32.min_signed, Int32.max_signed, SCREEN_WIDTH in *.
      simpl Z.pow. lia.
    - rewrite Hw. unfold Int32.in_range, Int32.min_signed, Int32.max_signed.
      simpl Z.pow. lia.
    - rewrite Hw. assumption. }
  unfold right, Int32.add. destruct (horizontal_frame state p) as (_ & -> & _).
  rewrite wrap_small;
    unfold Int32.in_range, Int32.min_signed, Int32.max_signed, SCREEN_WIDTH in *;
    simpl Z.pow; lia.
Qed.

Lemma render_inv (state : KeyState) (s : Loop) : loop_inv s -> loop_inv (render state s).
Proof.
  intros Hinv.
  destruct (gameState s) eqn:Hg;
    try (unfold render; rewrite Hg; exact Hinv).
  destruct (render_frame state s) as (Eps & _ & Emi & Esi & Eap).
  destruct (render_update state s Hg) as [Ep Eg].
  unfold loop_inv in *. rewrite Hg in Hinv.
  destruct Hinv as (Hp & Hmi & Hsi & Hps & Hb & Hr & Hap).
  rewrite Eps, Emi, Esi, Eap, Ep, Eg.
  split; [apply update_on_stage, Hp|]. split; [assumption|]. split; [assumption|].
  split; [assumption|].
  rewrite update_state_full, update_right, update_bottom.
  pose proof (stage_right state (player s) Hp) as Hle.
  destruct (right (PlayerUpdate.horizontal state (player s)) >=? SCREEN_WIDTH) eqn:E1.
  - split; [lia|assumption].
  - destruct (bottom (PlayerUpdate.settled state (levelPlatforms s) (player s))
              >=? GROUND_LEVEL) eqn:E2.
    + split; [reflexivity|]. split; [lia|assumption].
    + split; [lia|]. split; [lia|assumption].
Qed.

Lemma fold_handle_reachable (es : list SDL_Event) (s : Loop) :
  reachable s -> reachable (fold_left handle es s).
Proof.
  revert s. induction es as [|e es IH]; intros s Hs; cbn [fold_left]; auto.
  apply IH. constructor. exact Hs.
Qed.

Lemma loop_reachable (fs : list Frame) (s s' : Loop) :
  reachable s -> loop fs s = Some s' -> reachable s'.
Proof.
  revert s. induction fs as [|f fs IH]; intros s Hs.
  - cbn [loop]. destruct (isRunning s); [discriminate|]. intros [= <-]. exact Hs.
  - rewrite loop_cons. destruct (isRunning s).
    + apply IH. unfold frame. constructor. apply fold_handle_reachable, Hs.
    + intros [= <-]. exact Hs.
Qed.
End Invariant.

(** X10.  Every state of the loop, after any events and any frames from
    the start, keeps the following.  The player has the size 50 x 50 and
    the speed 3, its [x] is on the screen, its bottom edge is not below the
    ground line, and it is grounded only at rest.  The two carousel indices
    are indices of their lists.  The platforms are those of the start.  On
    the menu, map and skin screens the player is the start player; on the
    game screen it is above the ground line and left of the right edge; on
    the win screen its right edge is the right edge of the screen; on the
    lose screen its bottom edge is the ground line and the right edge is
    not reached; on these three screens the music is not paused.  What
    [runGameLoop] ends with is such a state. *)
Theorem loop_invariant :
  (forall s : Loop, reachable s -> loop_inv s) /\
  (forall (fs : list Frame) (s : Loop), loop fs initialLoop = Some s -> reachable s).
Proof.
  split.
  - intros s Hs. induction Hs as [|s e Hs IH|s state Hs IH].
    + exact loop_inv_initial.
    + apply handle_inv, IH.
    + apply render_inv, IH.
  - intros fs s. apply loop_reachable. constructor.
Qed.

Lemma loop_invariant_witness :
  loop_inv (render (keys [SDL_SCANCODE_D]) (handle initialLoop (SDL_MOUSEBUTTONDOWN 400 160))).
Proof.
  apply (proj1 loop_invariant). apply reach_render, reach_handle, reach_initial.
Defined.

(** ** The audio callback *)

Section Audio.

Lemma firstn_plus {A : Type} (a b : nat) (l : list A) :
  firstn (a + b) l = firstn a l ++ firstn b (skipn a l).
Proof.
  revert l. induction a as [|a IH]; intros l; [reflexivity|].
  destruct l as [|x l]; cbn [Nat.add firstn skipn app].
  - now rewrite firstn_nil.
  - now rewrite IH.
Qed.

(** One call, for a request that is a non-negative [int]: the callback
    copies [min len length] bytes and moves on by as many. *)
Lemma callback_step (wav : list byte) (audio : AudioData.t) (stream : list byte) (len : Z) :
  0 <= AudioData.length audio < 2 ^ 32 ->
  0 <= len <= Int32.max_signed ->
  let n := Z.min len (AudioData.length audio) in
  MyAudioCallback wav audio stream len =
  (AudioData.mk (AudioData.pos audio + n) (AudioData.length audio - n),
   firstn (Z.to_nat n) (skipn (Z.to_nat (AudioData.pos audio)) wav)
   ++ skipn (Z.to_nat n) stream).
Proof.
  intros HL Hlen n. unfold MyAudioCallback.
  unfold Int32.max_signed in Hlen. simpl Z.pow in *.
  destruct (AudioData.length audio =? 0) eqn:E0.
  - apply Z.eqb_eq in E0. subst n. rewrite E0, Z.min_r by lia.
    destruct audio as [P L]. cbn [AudioData.pos AudioData.length] in *. subst L.
    rewrite Z.add_0_r. reflexivity.
  - assert (Eu : UInt32.of_int len = len).
    { unfold UInt32.of_int, UInt32.wrap. apply Z.mod_small. simpl Z.pow. lia. }
    rewrite Eu.
    assert (En : (if len >? AudioData.length audio then AudioData.length audio else len) = n).
    { subst n. destruct (len >? AudioData.length audio) eqn:E;
        [apply Z.gtb_lt in E|rewrite Z.gtb_ltb in E; apply Z.ltb_ge in E]; lia. }
    rewrite En.
    assert (Hn : 0 <= n <= len) by (subst n; lia).
    assert (Ew : Int32.wrap n = n).
    { apply wrap_small.
      unfold Int32.in_range, Int32.min_signed, Int32.max_signed. simpl Z.pow. lia. }
    rewrite Ew.
    assert (Eu' : UInt32.of_int n = n).
    { unfold UInt32.of_int, UInt32.wrap. apply Z.mod_small. simpl Z.pow. lia. }
    rewrite Eu'.
    assert (Es : UInt32.sub (AudioData.length audio) n = AudioData.length audio - n).
    { unfold UInt32.sub, UInt32.wrap. apply Z.mod_small. simpl Z.pow. subst n. lia. }
    rewrite Es. unfold SDL_memcpy, Size.of_int, Size.wrap.
    rewrite (Z.mod_small n) by (simpl Z.pow; lia). reflexivity.
Qed.

Lemma audio_in_clip_step (wav : list byte) (audio : AudioData.t) (n : Z) :
  audio_in_clip wav audio -> 0 <= n <= AudioData.length audio ->
  audio_in_clip wav (AudioData.mk (AudioData.pos audio + n) (AudioData.length audio - n)).
Proof.
  unfold audio_in_clip. cbn [AudioData.pos AudioData.length]. simpl Z.pow. lia.
Qed.

(** The bytes of the clip that a call copies are all there. *)
Lemma clip_chunk (wav : list byte) (audio : AudioData.t) (n : Z) :
  audio_in_clip wav audio -> 0 <= n <= AudioData.length audio ->
  List.length (firstn (Z.to_nat n) (skipn (Z.to_nat (AudioData.pos audio)) wav)) = Z.to_nat n.
Proof.
  unfold audio_in_clip. intros (Hp & HL & Hend) Hn.
  rewrite length_firstn, length_skipn. lia.
Qed.

Lemma play_cons (wav : list byte) (audio : AudioData.t) (b : list byte)
    (rest : list (list byte)) :
  play wav audio (b :: rest) =
  (fst (play wav (fst (MyAudioCallback wav audio b (Z.of_nat (List.length b)))) rest),
   snd (MyAudioCallback wav audio b (Z.of_nat (List.length b)))
   :: snd (play wav (fst (MyAudioCallback wav audio b (Z.of_nat (List.length b)))) rest)).
Proof.
  cbn [play]. destruct (MyAudioCallback wav audio b (Z.of_nat (List.length b))) as [a1 out].
  cbn [fst snd]. destruct (play wav a1 rest) as [a2 outs]. reflexivity.
Qed.

Lemma play_spec (wav : list byte) (buffers : list (list byte)) (audio : AudioData.t) :
  audio_in_clip wav audio ->
  Forall (fun b => Z.of_nat (List.length b) <= Int32.max_signed) buffers ->
  let n := Z.min (Z.of_nat (List.length (concat buffers))) (AudioData.length audio) in
  fst (play wav audio buffers)
  = AudioData.mk (AudioData.pos audio + n) (AudioData.length audio - n) /\
  concat (snd (play wav audio buffers))
  = firstn (Z.to_nat n) (skipn (Z.to_nat (AudioData.pos audio)) wav)
    ++ skipn (Z.to_nat n) (concat buffers).
Proof.
  revert audio. induction buffers as [|b rest IH]; intros audio Hin Hall n.
  - subst n. cbn [play concat List.length fst snd]. change (Z.of_nat 0) with 0.
    destruct Hin as (Hp & HL & _). rewrite Z.min_l by lia.
    destruct audio as [P L]. cbn [AudioData.pos AudioData.length].
    rewrite Z.add_0_r, Z.sub_0_r. split; reflexivity.
  - inversion Hall as [|b' rest' Hb Hrest]; subst b' rest'.
    destruct Hin as (Hp & HL & Hend).
    rewrite play_cons.
    rewrite (callback_step wav audio b (Z.of_nat (List.length b)) HL) by lia.
    cbn [fst snd].
    set (k := Z.min (Z.of_nat (List.length b)) (AudioData.length audio)).
    assert (Hk : 0 <= k <= AudioData.length audio) by (subst k; lia).
    pose proof (audio_in_clip_step wav audio k (conj Hp (conj HL Hend)) Hk) as Hin1.
    destruct (IH _ Hin1 Hrest) as [IHa IHo].
    cbn [AudioData.pos AudioData.length] in IHa, IHo.
    subst n. cbn [concat]. rewrite IHa, IHo. clear IHa IHo IH. rewrite length_app, Nat2Z.inj_add.
    set (B := List.length b) in *. set (C := List.length (concat rest)) in *.
    set (L := AudioData.length audio) in *. set (P := AudioData.pos audio) in *.
    destruct (Z.le_gt_cases (Z.of_nat B) L) as [Hle|Hgt].
    + assert (Ek : k = Z.of_nat B) by (subst k; lia).
      assert (En : Z.min (Z.of_nat B + Z.of_nat C) L
                   = Z.of_nat B + Z.min (Z.of_nat C) (L - k)) by lia.
      rewrite En, Ek. split; [f_equal; lia|].
      rewrite Nat2Z.id.
      rewrite (Z2Nat.inj_add (Z.of_nat B)) by lia. rewrite Nat2Z.id.
      rewrite firstn_plus, skipn_skipn.
      rewrite (Z2Nat.inj_add P) by lia. rewrite Nat2Z.id.
      rewrite (Nat.add_comm (Z.to_nat P) B).
      rewrite skipn_app. fold B.
      rewrite (skipn_all2 b) by (fold B; lia).
      rewrite (skipn_all2 b) by (fold B; lia).
      rewrite app_nil_r. cbn [app].
      replace (B + Z.to_nat (Z.min (Z.of_nat C) (L - Z.of_nat B)) - B)%nat
        with (Z.to_nat (Z.min (Z.of_nat C) (L - Z.of_nat B))) by lia.
      now rewrite <- app_assoc.
    + assert (Ek : k = L) by (subst k; lia).
      assert (En : Z.min (Z.of_nat B + Z.of_nat C) L = L) by lia.
      rewrite En, Ek, Z.sub_diag, Z.min_r by lia.
      split; [f_equal; lia|].
      change (Z.to_nat 0) with 0%nat. cbn [firstn skipn app].
      rewrite skipn_app. fold B.
      replace (Z.to_nat L - B)%nat with 0%nat by lia. cbn [skipn].
      now rewrite <- app_assoc.
Qed.
End Audio.

(** X11.  One call of the audio callback, with a request that fits an
    [int] and a device buffer that holds it: the callback copies
    [n = min len length] bytes of the clip, from [pos] on, to the front of
    the buffer and leaves the rest of the buffer as it was (it writes no
    silence when the clip runs short, and nothing at all when the clip is
    over); it then advances [pos] and reduces [length] by [n].  All [n]
    bytes lie inside the clip, the buffer keeps its size, and the state
    stays inside the clip with [pos + length] unchanged. *)
Theorem callback_copies_within_clip
    (wav : list byte) (audio : AudioData.t) (stream : list byte) (len : Z) :
  audio_in_clip wav audio ->
  0 <= len <= Int32.max_signed ->
  len <= Z.of_nat (List.length stream) ->
  let n := Z.min len (AudioData.length audio) in
  let chunk := firstn (Z.to_nat n) (skipn (Z.to_nat (AudioData.pos audio)) wav) in
  let audio' := fst (MyAudioCallback wav audio stream len) in
  let stream' := snd (MyAudioCallback wav audio stream len) in
  stream' = chunk ++ skipn (Z.to_nat n) stream /\
  List.length chunk = Z.to_nat n /\
  List.length stream' = List.length stream /\
  AudioData.pos audio' = AudioData.pos audio + n /\
  AudioData.length audio' = AudioData.length audio - n /\
  AudioData.pos audio' + AudioData.length audio'
  = AudioData.pos audio + AudioData.length audio /\
  audio_in_clip wav audio'.
Proof.
  intros Hin Hlen Hstream n chunk audio' stream'.
  destruct Hin as (Hp & HL & Hend).
  assert (Hn : 0 <= n <= AudioData.length audio) by (subst n; lia).
  pose proof (clip_chunk wav audio n (conj Hp (conj HL Hend)) Hn) as Hchunk.
  subst audio' stream'.
  rewrite (callback_step wav audio stream len HL Hlen). cbn [fst snd].
  fold n. subst chunk. cbn [AudioData.pos AudioData.length].
  split; [reflexivity|]. split; [exact Hchunk|]. split.
  { rewrite length_app, Hchunk, length_skipn. subst n. lia. }
  split; [reflexivity|]. split; [reflexivity|]. split; [lia|].
  apply (audio_in_clip_step wav audio n (conj Hp (conj HL Hend)) Hn).
Qed.

Lemma callback_copies_within_clip_witness :
  snd (MyAudioCallback [x01; x02; x03] (AudioData.mk 1 2) [x0a; x0b; x0c; x0d] 4)
  = [x02; x03; x0c; x0d].
Proof.
  destruct (callback_copies_within_clip [x01; x02; x03] (AudioData.mk 1 2)
              [x0a; x0b; x0c; x0d] 4) as (H & _).
  - vm_compute. repeat split; try discriminate; reflexivity.
  - vm_compute. split; discriminate.
  - vm_compute. discriminate.
  - rewrite H. reflexivity.
Defined.

(** X12.  A run of the device over a sequence of buffers: put end to end,
    the buffers come back with the rest of the clip at the front, once and
    in order, and behind it their own old content; the state has moved on
    by the number of bytes played.  So the clip is played a single time,
    and from the moment it is over ([length = 0]) the buffers are handed
    back untouched. *)
Theorem play_plays_clip_once
    (wav : list byte) (audio : AudioData.t) (buffers : list (list byte)) :
  audio_in_clip wav audio ->
  Forall (fun b => Z.of_nat (List.length b) <= Int32.max_signed) buffers ->
  let n := Z.min (Z.of_nat (List.length (concat buffers))) (AudioData.length audio) in
  fst (play wav audio buffers)
  = AudioData.mk (AudioData.pos audio + n) (AudioData.length audio - n) /\
  concat (snd (play wav audio buffers))
  = firstn (Z.to_nat n) (skipn (Z.to_nat (AudioData.pos audio)) wav)
    ++ skipn (Z.to_nat n) (concat buffers) /\
  (AudioData.length audio <= Z.of_nat (List.length (concat buffers)) ->
   AudioData.length (fst (play wav audio buffers)) = 0) /\
  (AudioData.length audio = 0 ->
   concat (snd (play wav audio buffers)) = concat buffers).
Proof.
  intros Hin Hall n.
  destruct (play_spec wav buffers audio Hin Hall) as [Ha Ho]. fold n in Ha, Ho.
  split; [exact Ha|]. split; [exact Ho|]. split.
  - intros Hle. rewrite Ha. cbn [AudioData.length]. subst n. lia.
  - intros H0. rewrite Ho. subst n. rewrite H0, Z.min_r by lia. reflexivity.
Qed.

Lemma play_plays_clip_once_witness :
  concat (snd (play [x01; x02; x03] (initialAudio [x01; x02; x03])
                    [[x0a; x0b]; [x0c; x0d]; [x0e]]))
  = [x01; x02; x03; x0d; x0e].
Proof.
  destruct (play_plays_clip_once [x01; x02; x03] (initialAudio [x01; x02; x03])
              [[x0a; x0b]; [x0c; x0d]; [x0e]]) as (_ & H & _).
  - vm_compute. repeat split; try discriminate; reflexivity.
  - repeat constructor; vm_compute; discriminate.
  - rewrite H. reflexivity.
Defined.

(** ** Opposite keys *)

(** X13.  With the left and the right key both held, or neither, a player
    on the screen keeps its [x], whatever its speed: the two displacements
    cancel even when they wrap. *)
Theorem update_opposite_keys_cancel
    (state : KeyState) (g : GameState) (ps : list Platform) (p : Player) :
  held state SDL_SCANCODE_A = held state SDL_SCANCODE_D ->
  Int32.in_range (rect_x (rect p)) ->
  Int32.in_range (rect_w (rect p)) ->
  0 <= rect_x (rect p) <= SCREEN_WIDTH - rect_w (rect p) ->
  PlayerUpdate.moveX state p = 0 /\
  rect_x (rect (fst (update state g ps p))) = rect_x (rect p).
Proof.
  intros Hk Hx Hw Hin.
  assert (Hm : PlayerUpdate.moveX state p = 0).
  { unfold PlayerUpdate.moveX. rewrite Hk.
    destruct (held state SDL_SCANCODE_D); [|reflexivity].
    rewrite wrap_sub_add. reflexivity. }
  split; [exact Hm|].
  destruct (update_x state g ps p) as (-> & _).
  unfold PlayerUpdate.horizontal, right. rewrite Hm.
  cbn [rect rect_x rect_w set_x].
  destruct (Int32.add (rect_x (rect p)) 0 <? 0) eqn:E1;
    cbn [rect rect_x rect_w set_x].
  - revert E1. wrap_lia.
  - destruct (Int32.add (Int32.add (rect_x (rect p)) 0) (rect_w (rect p)) >? SCREEN_WIDTH) eqn:E2;
      cbn [rect rect_x rect_w set_x]; revert E1 E2; wrap_lia.
Qed.

Lemma update_opposite_keys_cancel_witness :
  rect_x (rect (fst (update (keys [SDL_SCANCODE_A; SDL_SCANCODE_D]) GameScreen platforms
                            (newPlayer 100 480 50 50 true)))) = 100.
Proof.
  apply (update_opposite_keys_cancel (keys [SDL_SCANCODE_A; SDL_SCANCODE_D]) GameScreen
           platforms (newPlayer 100 480 50 50 true)).
  - reflexivity.
  - vm_compute. split; discriminate.
  - vm_compute. split; discriminate.
  - vm_compute. split; discriminate.
Defined.
